(** * WeekendProject: the two Lightning web components

    A shallow embedding of
    - [lwc/serialProcessSetup/serialProcessSetup.js] (the settings table:
      change staging and the grouped view), and
    - [lwc/processVariables/processVariables.js] (the save request of the
      process-variables form),
    together with the properties the specification states about them.

    JavaScript values are modelled dynamically ([jsval]); a record is a
    JavaScript object, i.e. a finite map from property names to values;
    a [Map] keeps its insertion order; a handler is a computation over
    the component's fields that may throw and that emits toasts and
    remote calls. *)

From Stdlib Require Import ZArith String Ascii List Sorted Permutation Lia.
From stdpp Require Import base numbers option list strings gmap pretty sorting.

Open Scope string_scope.
Open Scope list_scope.

(** ** The JavaScript fragment the components use

    A string is the sequence of its code units, taken below 256, so
    that [String.length] is the [length] property. *)

Module JS.

(** Numbers. The components compute with integers (orders, counts),
    with [NaN] (what [parseInt] returns on malformed text) and, when a
    numeral is too long for a double, with the infinities. [Int z] is
    the double whose value is the integer [z]; the two zeros are not
    told apart (no operation used here does), and numbers with a
    fraction, which no order or count is, are left out. *)
Inductive number : Type :=
  | Int (z : Z)
  | NaN
  | Inf (negative : bool).

Inductive jsval : Type :=
  | VUndef
  | VNull
  | VBool (b : bool)
  | VNum (n : number)
  | VStr (s : string).

#[global] Instance number_eq_dec : EqDecision number.
Proof. solve_decision. Defined.

#[global] Instance jsval_eq_dec : EqDecision jsval.
Proof. solve_decision. Defined.

(** ToBoolean *)
Definition truthy (v : jsval) : bool :=
  match v with
  | VUndef | VNull => false
  | VBool b => b
  | VNum (Int z) => negb (z =? 0)%Z
  | VNum NaN => false
  | VNum (Inf _) => true
  | VStr s => negb (String.eqb s "")
  end.

(** [a || b] *)
Definition js_or (a b : jsval) : jsval := if truthy a then a else b.

(** [a === b]: structural on primitives, except that [NaN] is not equal
    to itself. *)
Definition strict_eq (a b : jsval) : bool :=
  match a, b with
  | VNum NaN, _ | _, VNum NaN => false
  | _, _ => bool_decide (a = b)
  end.

(** The Number value for an integer: the double nearest to it, a tie
    going to the one with the even significand, and an infinity from
    [2^1024 - 2^970] on. Integers up to [2^53] in magnitude are
    doubles; beyond, a double is a 53-bit significand [q] times a
    power [2^e] of two. *)
Definition round_double (z : Z) : number :=
  let a := Z.abs z in
  if (a <=? 9007199254740992)%Z then Int z
  else
    let e := (Z.log2 a - 52)%Z in
    let q := (a / 2 ^ e)%Z in
    let r := (a mod 2 ^ e)%Z in
    let half := (2 ^ (e - 1))%Z in
    let q' :=
      if (r <? half)%Z then q
      else if (half <? r)%Z then (q + 1)%Z
      else if Z.even q then q else (q + 1)%Z in
    let m := (q' * 2 ^ e)%Z in
    if (2 ^ 1024 <=? m)%Z then Inf (z <? 0)%Z
    else Int (Z.sgn z * m).

(** Number::toString on an integer. Up to [2^53] in magnitude it is
    the decimal writing. Beyond, it is the shortest numeral that reads
    back as the double: among the multiples of a power of ten with [k]
    significant digits that round to [v], for the least such [k], the
    one nearest to [v]; written in full up to 21 digits, and with an
    exponent from there on. *)
Fixpoint shortest_numeral (fuel k : nat) (v : Z) : Z :=
  match fuel with
  | O => v
  | S fuel' =>
      let p := (10 ^ Z.of_nat (String.length (pretty v) - k))%Z in
      let lo := (v / p * p)%Z in
      let hi := (lo + p)%Z in
      let reads_back c := bool_decide (round_double c = Int v) in
      if reads_back lo && reads_back hi then
        if (v - lo <? hi - v)%Z then lo
        else if (hi - v <? v - lo)%Z then hi
        else if Z.even (lo / p) then lo else hi
      else if reads_back lo then lo
      else if reads_back hi then hi
      else shortest_numeral fuel' (S k) v
  end.

Fixpoint strip_zeros (fuel : nat) (s : Z) : Z :=
  match fuel with
  | O => s
  | S fuel' => if (s mod 10 =? 0)%Z then strip_zeros fuel' (s / 10)%Z else s
  end.

Definition Number_toString (z : Z) : string :=
  if (Z.abs z <=? 9007199254740992)%Z then pretty z
  else
    let sign := if (z <? 0)%Z then "-" else "" in
    let c := shortest_numeral 17 1 (Z.abs z) in
    let n := String.length (pretty c) in
    if (n <=? 21)%nat then sign +:+ pretty c
    else
      match pretty (strip_zeros n c) with
      | String d "" => sign +:+ String d "" +:+ "e+" +:+ pretty (n - 1)%nat
      | String d rest => sign +:+ String d ("." +:+ rest) +:+ "e+" +:+ pretty (n - 1)%nat
      | "" => ""
      end.

(** ToString on primitives. *)
Definition ToString (v : jsval) : string :=
  match v with
  | VUndef => "undefined"
  | VNull => "null"
  | VBool true => "true"
  | VBool false => "false"
  | VNum (Int z) => Number_toString z
  | VNum NaN => "NaN"
  | VNum (Inf false) => "Infinity"
  | VNum (Inf true) => "-Infinity"
  | VStr s => s
  end.

(** Binary [-] on numbers: the difference, rounded. *)
Definition num_sub (a b : number) : number :=
  match a, b with
  | Int x, Int y => round_double (x - y)
  | Int _, Inf n => Inf (negb n)
  | Inf n, Int _ => Inf n
  | Inf n, Inf n' => if Bool.eqb n n' then NaN else Inf n
  | NaN, _ | _, NaN => NaN
  end.

(** *** [parseInt(text, 10)] *)

(** White space and line terminators among the code units below 256. *)
Definition is_space (c : ascii) : bool :=
  let n := nat_of_ascii c in
  (Nat.eqb n 9 || Nat.eqb n 10 || Nat.eqb n 11 || Nat.eqb n 12
   || Nat.eqb n 13 || Nat.eqb n 32 || Nat.eqb n 160)%bool.

Definition digit_of (c : ascii) : option Z :=
  let n := nat_of_ascii c in
  if (Nat.leb 48 n && Nat.leb n 57)%bool then Some (Z.of_nat (n - 48)) else None.

Fixpoint skip_space (s : string) : string :=
  match s with
  | String c s' => if is_space c then skip_space s' else s
  | EmptyString => EmptyString
  end.

(** The value of the longest prefix of decimal digits, after [acc];
    [None] when no digit has been read at all. *)
Fixpoint digits (s : string) (acc : option Z) : option Z :=
  match s with
  | String c s' =>
      match digit_of c with
      | Some d => digits s' (Some (10 * default 0%Z acc + d)%Z)
      | None => acc
      end
  | EmptyString => acc
  end.

(** The integer read is turned into the Number value for it. (The
    language lets an engine read the digits after the twentieth as
    zeros; the engines in use read them all, and so is it done here.) *)
Definition parseInt (s : string) : number :=
  match skip_space s with
  | String "-" t =>
      match digits t None with Some z => round_double (- z) | None => NaN end
  | String "+" t =>
      match digits t None with Some z => round_double z | None => NaN end
  | t => match digits t None with Some z => round_double z | None => NaN end
  end.

(** *** Abrupt completion *)

Inductive completion (A : Type) : Type :=
  | Normal (a : A)
  | ThrowTypeError.
Arguments Normal {A} a.
Arguments ThrowTypeError {A}.

#[global] Instance completion_ret : MRet completion := fun A a => Normal a.
#[global] Instance completion_bind : MBind completion :=
  fun A B f m => match m with Normal a => f a | ThrowTypeError => ThrowTypeError end.

Fixpoint mapM_c {A B} (f : A -> completion B) (l : list A) : completion (list B) :=
  match l with
  | [] => Normal []
  | x :: l' => y ← f x; ys ← mapM_c f l'; Normal (y :: ys)
  end.

(** *** [Array.prototype.sort(comparefn)]

    The sort is stable and its result is fixed by the language whenever
    the comparator is consistent; it is modelled as the stable insertion
    sort. With a comparator that is not consistent, the order and the
    pairs compared are up to the engine; the model then stands for one
    such choice. A comparator result that is [NaN] counts as [+0]; a
    comparator that throws aborts the sort. *)
Definition le0 (n : number) : bool :=
  match n with
  | Int z => (z <=? 0)%Z
  | NaN => true
  | Inf negative => negative
  end.

Section array_sort.
Context {A : Type} (comparefn : A -> A -> completion number).

Fixpoint insert_sorted (x : A) (l : list A) : completion (list A) :=
  match l with
  | [] => Normal [x]
  | y :: l' =>
      c ← comparefn x y;
      if le0 c then Normal (x :: y :: l')
      else (l'' ← insert_sorted x l'; Normal (y :: l''))
  end.

Fixpoint array_sort (l : list A) : completion (list A) :=
  match l with
  | [] => Normal []
  | x :: l' => s ← array_sort l'; insert_sorted x s
  end.
End array_sort.

(** *** [Map]: keyed by SameValueZero, iterated in insertion order *)
Module JSMap.
Section jsmap.
Context {K V : Type} `{EqDecision K}.

Fixpoint get (k : K) (m : list (K * V)) : option V :=
  match m with
  | [] => None
  | (k', v) :: m' => if decide (k = k') then Some v else get k m'
  end.

Definition has (k : K) (m : list (K * V)) : bool :=
  match get k m with Some _ => true | None => false end.

(** An existing key keeps its position. *)
Fixpoint set (k : K) (v : V) (m : list (K * V)) : list (K * V) :=
  match m with
  | [] => [(k, v)]
  | (k', v') :: m' =>
      if decide (k = k') then (k, v) :: m' else (k', v') :: set k v m'
  end.

Definition clear (m : list (K * V)) : list (K * V) := [].
Definition size (m : list (K * V)) : nat := length m.
Definition keys (m : list (K * V)) : list K := map fst m.
Definition values (m : list (K * V)) : list V := map snd m.
Definition entries (m : list (K * V)) : list (K * V) := m.
End jsmap.
End JSMap.

(** *** A collation to instantiate [localeCompare] with

    [String.prototype.localeCompare] is provided by the host; the
    development is parametric in it. This comparison by code units is
    one admissible instance, used to run the model on examples. *)
Definition codeunit_compare (a b : string) : Z :=
  match String.compare a b with
  | Eq => 0
  | Lt => -1
  | Gt => 1
  end%Z.

(** No string read as a number: enough to run examples that subtract
    no strings. *)
Definition nan_of_string (s : string) : number := NaN.

End JS.
Export JS.


(** ** The process-variables form: [processVariables.js] *)

Module ProcessVariables.

(** The tracked fields. The toggle is only ever assigned a boolean and
    the in-edit timestamp a string ([event.target.value], the output
    of [toInputDateTimeLocal], or the empty string). *)
Record state : Type := State {
  serialEngineOn : bool;
  serialEngineTimestampDisplay : string;
  labelSerialEngineOn : string;
  labelSerialEngineTimestamp : string;
  editSerialEngineOn : bool;
  editSerialEngineTimestamp : string;
  rawSerialEngineTimestamp : jsval
}.

(** The argument object of [updateProcessVariables]. *)
Record update_request : Type := UpdateRequest {
  request_serialEngineOn : bool;
  serialEngineTimestampIso : jsval
}.

(** What a [Date] answers to the local-time getters. *)
Record local_date : Type := LocalDate {
  getFullYear : Z;
  getMonth : nat;
  getDate : nat;
  getHours : nat;
  getMinutes : nat
}.

Definition pad (n : nat) : string :=
  if (n <? 10)%nat then "0" +:+ pretty n else "" +:+ pretty n.

(** [toInputDateTimeLocal(dateObj)] *)
Definition toInputDateTimeLocal (dateObj : local_date) : string :=
  let yyyy := getFullYear dateObj in
  let mm := pad (getMonth dateObj + 1) in
  let dd := pad (getDate dateObj) in
  let hh := pad (getHours dateObj) in
  let mi := pad (getMinutes dateObj) in
  pretty yyyy +:+ "-" +:+ mm +:+ "-" +:+ dd +:+ "T" +:+ hh +:+ ":" +:+ mi.

(** [handleToggleChange(event)], [handleTimestampChange(event)] *)
Definition handleToggleChange (target_checked : bool) (s : state) : state :=
  State (serialEngineOn s) (serialEngineTimestampDisplay s) (labelSerialEngineOn s)
        (labelSerialEngineTimestamp s) target_checked (editSerialEngineTimestamp s)
        (rawSerialEngineTimestamp s).

Definition handleTimestampChange (target_value : string) (s : state) : state :=
  State (serialEngineOn s) (serialEngineTimestampDisplay s) (labelSerialEngineOn s)
        (labelSerialEngineTimestamp s) (editSerialEngineOn s) target_value
        (rawSerialEngineTimestamp s).

(** [tsIso] of [handleSave], lines 89-96. *)
Definition tsIso (s : state) : jsval :=
  if truthy (VStr (editSerialEngineTimestamp s)) then
    let tsIso := editSerialEngineTimestamp s in
    if ((16 <=? String.length tsIso) && (String.length tsIso <? 19))%nat
    then VStr (tsIso +:+ ":00")
    else VStr tsIso
  else VNull.

(** [handleSave()], up to the [await]: the request sent to
    [updateProcessVariables]. *)
Definition handleSave_request (s : state) : update_request :=
  UpdateRequest (editSerialEngineOn s) (tsIso s).

(** The shape [yyyy-MM-ddTHH:mm] of a [datetime-local] value without
    seconds: digits, with the separators in their places. *)
Inductive slot : Type :=
  | Digit
  | Lit (c : ascii).

Fixpoint has_shape (shape : list slot) (s : string) : bool :=
  match shape, s with
  | [], EmptyString => true
  | Digit :: shape', String c s' =>
      (match digit_of c with Some _ => true | None => false end) && has_shape shape' s'
  | Lit l :: shape', String c s' => Ascii.eqb l c && has_shape shape' s'
  | _, _ => false
  end.

Definition minutes_shape : list slot :=
  [Digit; Digit; Digit; Digit; Lit "-"; Digit; Digit; Lit "-"; Digit; Digit;
   Lit "T"; Digit; Digit; Lit ":"; Digit; Digit].

Definition is_datetime_local_minutes (s : string) : bool := has_shape minutes_shape s.

(** A form in which a timestamp without seconds has been typed. *)
Definition typed_minutes : state :=
  State false "" "Serial Engine On" "Serial Engine Timestamp" true
        "2024-05-06T07:08" VNull.

(** The component as constructed. *)
Definition initial : state :=
  State false "—" "Serial Engine On" "Serial Engine Timestamp" false "" VNull.

(** [get pillClassSerialEngineOn()], [get serialEngineOnPillLabel()] *)
Definition pillClassSerialEngineOn (s : state) : string :=
  "pill " +:+ (if serialEngineOn s then "green" else "red").

Definition serialEngineOnPillLabel (s : state) : string :=
  if serialEngineOn s then "Running" else "Stopped".

(** What [getProcessVariables] and [updateProcessVariables] answer when
    they answer with an object, and what [getProcessVariableLabels]
    does (a label that is absent is [None]). *)
Record process_variables : Type := ProcessVariablesDto {
  dto_serialEngineOn : jsval;
  dto_serialEngineTimestamp : jsval
}.

Record label_overrides : Type := LabelOverrides {
  labels_serialEngineOn : option string;
  labels_serialEngineTimestamp : option string
}.

(** How a call of [getProcessVariables] inside [loadVars] ends: with an
    answer (an object or nothing), or rejected. *)
Inductive fetched : Type :=
  | Fetched (vars : option process_variables)
  | FetchFailed.

(** What is thrown at [handleSave]: possibly nothing, possibly without
    a [body]; [body.message] is whatever the service put there. *)
Record save_error : Type := SaveError { error_body : option jsval }.

Inductive toast : Type :=
  | Toast (title : string) (message : jsval) (variant : string).

(** What the user does to the open form. *)
Inductive form_edit : Type :=
  | ToggleChange (target_checked : bool)
  | TimestampChange (target_value : string).

Definition form_edit_apply (s : state) (e : form_edit) : state :=
  match e with
  | ToggleChange b => handleToggleChange b s
  | TimestampChange v => handleTimestampChange v s
  end.

(** [loadLabels()], once [getProcessVariableLabels] has answered. *)
Definition loadLabels_resolved (labels : option label_overrides) (s : state) : state :=
  match labels with
  | Some labels =>
      let on :=
        match labels_serialEngineOn labels with
        | Some l => if truthy (VStr l) then l else labelSerialEngineOn s
        | None => labelSerialEngineOn s
        end in
      let ts :=
        match labels_serialEngineTimestamp labels with
        | Some l => if truthy (VStr l) then l else labelSerialEngineTimestamp s
        | None => labelSerialEngineTimestamp s
        end in
      State (serialEngineOn s) (serialEngineTimestampDisplay s) on ts
            (editSerialEngineOn s) (editSerialEngineTimestamp s)
            (rawSerialEngineTimestamp s)
  | None => s
  end.

(** [(e && e.body && e.body.message) ? e.body.message
     : 'Unable to save changes'] *)
Definition save_error_message (e : option save_error) : jsval :=
  match e with
  | Some (SaveError (Some message)) =>
      if truthy message then message else VStr "Unable to save changes"
  | _ => VStr "Unable to save changes"
  end.

(** The [catch] of [handleSave]. *)
Definition handleSave_rejected (e : option save_error) (s : state) : state * list toast :=
  (s, [Toast "Error saving" (save_error_message e) "error"]).

Section dates.

(** Supplied by the host, for a value [v] that denotes a date:
    [new Date(v)], read through the local-time getters, and
    [new Date(v).toLocaleString()]. *)
Variable local_time_of : jsval -> local_date.
Variable toLocaleString : jsval -> string.

(** The assignments of [loadVars], lines 34-43. *)
Definition loadVars_apply (vars : process_variables) (s : state) : state :=
  let on := strict_eq (dto_serialEngineOn vars) (VBool true) in
  State on
        (if truthy (dto_serialEngineTimestamp vars)
         then toLocaleString (dto_serialEngineTimestamp vars) else "—")
        (labelSerialEngineOn s) (labelSerialEngineTimestamp s)
        on
        (if truthy (dto_serialEngineTimestamp vars)
         then toInputDateTimeLocal (local_time_of (dto_serialEngineTimestamp vars))
         else "")
        (js_or (dto_serialEngineTimestamp vars) VNull).

(** [loadVars()], once [getProcessVariables] has settled; a rejection
    is only logged. *)
Definition loadVars_settled (f : fetched) (s : state) : state :=
  match f with
  | Fetched (Some vars) => loadVars_apply vars s
  | Fetched None => s
  | FetchFailed => s
  end.

(** The assignments of [handleSave] from the returned values, lines
    103-111. *)
Definition handleSave_apply (dto : process_variables) (s : state) : state :=
  let on := strict_eq (dto_serialEngineOn dto) (VBool true) in
  let display :=
    if truthy (dto_serialEngineTimestamp dto)
    then toLocaleString (dto_serialEngineTimestamp dto) else "—" in
  let edit :=
    if truthy (dto_serialEngineTimestamp dto)
    then toInputDateTimeLocal (local_time_of (dto_serialEngineTimestamp dto))
    else "" in
  State on display (labelSerialEngineOn s) (labelSerialEngineTimestamp s) on edit
        (js_or (dto_serialEngineTimestamp dto) VNull).

(** [handleSave()], after the [await]: the returned values are applied,
    or, when none are returned, loaded afresh ([reload] is how that
    load ends); then the toast. *)
Definition handleSave_resolved (dto : option process_variables) (reload : fetched)
    (s : state) : state * list toast :=
  let s' :=
    match dto with
    | Some dto => handleSave_apply dto s
    | None => loadVars_settled reload s
    end in
  (s', [Toast "Saved" (VStr "Process variables updated") "success"]).

(** [handleCancel()] *)
Definition handleCancel (s : state) : state :=
  State (serialEngineOn s) (serialEngineTimestampDisplay s) (labelSerialEngineOn s)
        (labelSerialEngineTimestamp s)
        (serialEngineOn s)
        (if truthy (rawSerialEngineTimestamp s)
         then toInputDateTimeLocal (local_time_of (rawSerialEngineTimestamp s))
         else "")
        (rawSerialEngineTimestamp s).

End dates.

(** A date, one before the year 1000, and a host that reads every value
    as the former: enough to run examples. *)
Definition sample_date : local_date := LocalDate 2024 4 6 7 8.
Definition early_date : local_date := LocalDate 987 0 2 3 4.
Definition fixed_local_time (v : jsval) : local_date := sample_date.
Definition fixed_locale_string (v : jsval) : string := "5/6/2024, 7:08:37 AM".

(** An answer of the service: engine on, with a timestamp. *)
Definition sample_vars : process_variables :=
  ProcessVariablesDto (VBool true) (VStr "2024-05-06T07:08:37.000Z").

End ProcessVariables.


(** ** The settings table: [serialProcessSetup.js] *)

(** A record is a JavaScript object. *)
Abbreviation record := (gmap string jsval).

(** [r.f]: reading an absent property gives [undefined]. *)
Definition field (r : record) (f : string) : jsval := default VUndef (r !! f).

(** One element of [groupedProcessData]. *)
Record group : Type := Group {
  groupName : jsval;
  processes : list record;
  allActive : bool;
  headerClass : string;
  statusText : string
}.

(** What a wire adapter or a rejected Apex call hands over: [error.body]
    may be missing, and [error.body.message] is whatever the service
    put there. *)
Record apex_error : Type := ApexError { body : option jsval }.

Record wire_result : Type := WireResult {
  data : option (list record);
  error : option apex_error
}.

(** [event.target] of an inline edit. *)
Record edit_target : Type := EditTarget {
  dataset_id : string;
  dataset_field : string;
  target_type : string;
  checked : bool;
  value : string
}.

(** The reactive fields of the component. *)
Record state : Type := State {
  processData : list record;
  originalData : list record;
  groupedProcessData : list group;
  changedRecords : list (string * record);
  isLoading : bool;
  wiredProcessResult : option wire_result
}.

(** What a handler does to the outside: a toast event, or a call of an
    imported Apex method. *)
Inductive effect : Type :=
  | ShowToast (title message variant : string)
  | UpdateProcessSettings (processSettings : list record)
  | RefreshApex (wired : option wire_result).

Record outcome (A : Type) : Type := Outcome {
  result : completion A;
  final : state;
  emitted : list effect
}.
Arguments Outcome {A} result final emitted.
Arguments result {A} o.
Arguments final {A} o.
Arguments emitted {A} o.

(** A handler body: runs on the fields, may throw, emits effects. When
    it throws, the assignments and effects made so far stay. *)
Definition M (A : Type) : Type := state -> outcome A.

#[global] Instance M_ret : MRet M := fun A a s => Outcome (Normal a) s [].
#[global] Instance M_bind : MBind M := fun A B f m s =>
  let o := m s in
  match result o with
  | Normal a =>
      let o' := f a (final o) in
      Outcome (result o') (final o') (emitted o ++ emitted o')
  | ThrowTypeError => Outcome ThrowTypeError (final o) (emitted o)
  end.

Definition read {A} (f : state -> A) : M A := fun s => Outcome (Normal (f s)) s [].
Definition assign (f : state -> state) : M unit := fun s => Outcome (Normal tt) (f s) [].
Definition emit (e : effect) : M unit := fun s => Outcome (Normal tt) s [e].
Definition lift {A} (c : completion A) : M A := fun s => Outcome c s [].

(** [m.catch(h)] and [m.finally(f)] on the promise chain of a handler. *)
Definition catch (m : M unit) (h : M unit) : M unit := fun s =>
  let o := m s in
  match result o with
  | Normal _ => o
  | ThrowTypeError =>
      let o' := h (final o) in
      Outcome (result o') (final o') (emitted o ++ emitted o')
  end.

Definition finally (m : M unit) (f : M unit) : M unit := fun s =>
  let o := m s in
  let o' := f (final o) in
  Outcome (match result o' with Normal _ => result o | ThrowTypeError => ThrowTypeError end)
          (final o') (emitted o ++ emitted o').

Definition set_processData (v : list record) (s : state) : state :=
  State v (originalData s) (groupedProcessData s) (changedRecords s) (isLoading s)
        (wiredProcessResult s).
Definition set_originalData (v : list record) (s : state) : state :=
  State (processData s) v (groupedProcessData s) (changedRecords s) (isLoading s)
        (wiredProcessResult s).
Definition set_groupedProcessData (v : list group) (s : state) : state :=
  State (processData s) (originalData s) v (changedRecords s) (isLoading s)
        (wiredProcessResult s).
Definition set_changedRecords (v : list (string * record)) (s : state) : state :=
  State (processData s) (originalData s) (groupedProcessData s) v (isLoading s)
        (wiredProcessResult s).
Definition set_isLoading (v : bool) (s : state) : state :=
  State (processData s) (originalData s) (groupedProcessData s) (changedRecords s) v
        (wiredProcessResult s).
Definition set_wiredProcessResult (v : option wire_result) (s : state) : state :=
  State (processData s) (originalData s) (groupedProcessData s) (changedRecords s)
        (isLoading s) v.

(** The component as constructed. *)
Definition initial : state := State [] [] [] [] false None.

(** [get hasChanges()] *)
Definition hasChanges (s : state) : bool := (0 <? JSMap.size (changedRecords s))%nat.

(** [getRowClass(isActive)] *)
Definition getRowClass (isActive : jsval) : string :=
  if truthy isActive then "tr active" else "tr inactive".

(** [showToast(title, message, variant)] *)
Definition showToast (title message variant : string) : M unit :=
  emit (ShowToast title message variant).

(** The object literal both [wiredProcess] and [handleCancelChanges]
    map over the fetched records. *)
Definition working_copy (r : record) : record :=
  <["rowClass" := VStr (getRowClass (field r "Active__c"))]>
    (<["Id" := js_or (field r "Id") (field r "Name")]> r).

(** ['...' + error.body.message]; reading [message] off a missing body
    throws. *)
Definition error_message (prefix : string) (e : apex_error) : completion string :=
  match body e with
  | Some m => Normal (prefix +:+ ToString m)
  | None => ThrowTypeError
  end.

(** The [columns] of the table. *)
Record column : Type := Column {
  label : string;
  fieldName : string;
  type : string;
  editable : bool
}.

Definition columns : list column :=
  [Column "Name" "Name" "text" true;
   Column "Active" "Active__c" "boolean" true;
   Column "Group" "Group__c" "text" true;
   Column "Handler Class" "Handler_Class__c" "text" true;
   Column "Object" "Object__c" "text" true;
   Column "Order" "Order__c" "number" true].

Section SerialProcessSetup.

(** Supplied by the host: the collation behind
    [String.prototype.localeCompare], and the numeric reading of a
    string when one is subtracted. *)
Variable localeCompare : string -> string -> Z.
Variable StringToNumber : string -> number.

Definition ToNumber (v : jsval) : number :=
  match v with
  | VUndef => NaN
  | VNull => Int 0
  | VBool b => Int (if b then 1 else 0)
  | VNum n => n
  | VStr s => StringToNumber s
  end.

(** [a.localeCompare(b)]: only a string has the method. *)
Definition js_localeCompare (a b : jsval) : completion number :=
  match a with
  | VStr s => Normal (Int (localeCompare s (ToString b)))
  | _ => ThrowTypeError
  end.

(** The comparator of the members of a group (lines 192-197). *)
Definition compareProcesses (a b : record) : completion number :=
  if negb (strict_eq (field a "Order__c") (field b "Order__c")) then
    Normal (num_sub (ToNumber (js_or (field a "Order__c") (VNum (Int 999))))
                    (ToNumber (js_or (field b "Order__c") (VNum (Int 999)))))
  else js_localeCompare (field a "Name") (field b "Name").

(** The comparator of the groups (line 221). *)
Definition compareGroups (a b : group) : completion number :=
  js_localeCompare (groupName a) (groupName b).

Definition groupName_of (process : record) : jsval :=
  js_or (field process "Group__c") (VStr "Ungrouped").

Definition with_statusClass (process : record) : record :=
  <["statusClass" := VStr (if truthy (field process "Active__c")
                           then "process-box active-process"
                           else "process-box inactive-process")]> process.

(** The body of the [forEach] that fills [groupMap]. *)
Definition add_to_group (groupMap : list (jsval * list record)) (process : record)
  : list (jsval * list record) :=
  let groupName := groupName_of process in
  let groupMap :=
    if negb (JSMap.has groupName groupMap) then JSMap.set groupName [] groupMap
    else groupMap in
  JSMap.set groupName
    (default [] (JSMap.get groupName groupMap) ++ [with_statusClass process]) groupMap.

Definition is_active (process : record) : bool := truthy (field process "Active__c").

(** The callback that turns one [groupMap] entry into a group. *)
Definition make_group (entry : jsval * list record) : completion group :=
  let '(groupName, processes) := entry in
  sortedProcesses ← array_sort compareProcesses processes;
  let allActive := forallb is_active sortedProcesses in
  let allInactive := forallb (fun process => negb (is_active process)) sortedProcesses in
  let activeCount := length (filter (fun process => is_active process = true) sortedProcesses) in
  let totalCount := length sortedProcesses in
  let headerClass :=
    if allActive then "group-header active-group-header"
    else if allInactive then "group-header inactive-group-header"
    else "group-header mixed-group-header" in
  Normal (Group groupName sortedProcesses allActive headerClass
                (pretty activeCount +:+ "/" +:+ pretty totalCount +:+ " Active")).

(** The value [processGroupedData] computes for [groupedProcessData],
    as a function of [processData]. *)
Definition groupedView (processData : list record) : completion (list group) :=
  if (length processData =? 0)%nat then Normal []
  else
    let groupMap := fold_left add_to_group processData [] in
    groups ← mapM_c make_group (JSMap.entries groupMap);
    array_sort compareGroups groups.

(** [processGroupedData()] *)
Definition processGroupedData : M unit :=
  pd ← read processData;
  groups ← lift (groupedView pd);
  assign (set_groupedProcessData groups).

(** [wiredProcess(result)] *)
Definition wiredProcess (result : wire_result) : M unit :=
  assign (set_wiredProcessResult (Some result));;
  match data result, error result with
  | Some data, _ =>
      assign (set_originalData (map (fun record => record) data));;
      assign (set_processData (map working_copy data));;
      processGroupedData;;
      assign (fun s => set_changedRecords (JSMap.clear (changedRecords s)) s)
  | None, Some e =>
      message ← lift (error_message "Error loading process settings: " e);
      showToast "Error" message "error"
  | None, None => mret tt
  end.

(** [handleTableEdit(event)]: the value written, after the coercion
    of lines 81-86. *)
Definition edited_value (target : edit_target) : jsval :=
  let fieldName := dataset_field target in
  let fieldValue :=
    if String.eqb (target_type target) "checkbox" then VBool (checked target)
    else VStr (value target) in
  if (String.eqb fieldName "Order__c" && negb (strict_eq fieldValue (VStr "")))%bool
  then VNum (parseInt (ToString fieldValue))
  else fieldValue.

(** [updatedRecord] of lines 91-96. *)
Definition updated_record (fieldName : string) (fieldValue : jsval) (r : record)
  : record :=
  let updatedRecord := <[fieldName := fieldValue]> r in
  if String.eqb fieldName "Active__c"
  then <["rowClass" := VStr (getRowClass fieldValue)]> updatedRecord
  else updatedRecord.

(** The [map] of lines 89-104, with the [changedRecords.set] its
    callback performs on the way. *)
Fixpoint edit_records (recordId : string) (fieldName : string) (fieldValue : jsval)
    (records : list record) (changed : list (string * record))
  : list record * list (string * record) :=
  match records with
  | [] => ([], changed)
  | r :: rest =>
      if strict_eq (field r "Id") (VStr recordId) then
        let updatedRecord := updated_record fieldName fieldValue r in
        let '(rest', changed') :=
          edit_records recordId fieldName fieldValue rest
                       (JSMap.set recordId updatedRecord changed) in
        (updatedRecord :: rest', changed')
      else
        let '(rest', changed') :=
          edit_records recordId fieldName fieldValue rest changed in
        (r :: rest', changed')
  end.

Definition handleTableEdit (target : edit_target) : M unit :=
  let recordId := dataset_id target in
  let fieldName := dataset_field target in
  let fieldValue := edited_value target in
  pd ← read processData;
  cr ← read changedRecords;
  let '(pd', cr') := edit_records recordId fieldName fieldValue pd cr in
  assign (set_changedRecords cr');;
  assign (set_processData pd');;
  processGroupedData.

(** [handleSaveChanges()], up to the call of [updateProcessSettings];
    what is chained on the returned promise follows. *)
Definition handleSaveChanges : M unit :=
  cr ← read changedRecords;
  if (JSMap.size cr =? 0)%nat then showToast "Info" "No changes to save" "info"
  else
    assign (set_isLoading true);;
    let recordsToUpdate := JSMap.values cr in
    emit (UpdateProcessSettings recordsToUpdate).

(** First [.then]: the update resolved. *)
Definition save_then_refresh : M unit :=
  showToast "Success" "Process settings updated successfully" "success";;
  assign (fun s => set_changedRecords (JSMap.clear (changedRecords s)) s);;
  w ← read wiredProcessResult;
  emit (RefreshApex w).

(** Second [.then]: the refresh resolved. *)
Definition save_then_regroup : M unit := processGroupedData.

(** [.catch(error => ...)] *)
Definition save_catch (e : apex_error) : M unit :=
  message ← lift (error_message "Error updating records: " e);
  showToast "Error" message "error".

(** [.finally(() => ...)] *)
Definition save_finally : M unit := assign (set_isLoading false).

(** [handleCancelChanges()] *)
Definition handleCancelChanges : M unit :=
  od ← read originalData;
  assign (set_processData (map working_copy od));;
  assign (fun s => set_changedRecords (JSMap.clear (changedRecords s)) s);;
  processGroupedData;;
  showToast "Info" "Changes cancelled" "info".

(** What can happen to the component: the wire adapter provisions a
    result, the user edits a cell or presses a button, a pending
    promise settles. A [TypeError] caught by [.catch] carries no
    [body]. *)
Inductive event : Type :=
  | Wired (result : wire_result)
  | TableEdit (target : edit_target)
  | SaveChanges
  | CancelChanges
  | UpdateResolved
  | UpdateRejected (e : apex_error)
  | RefreshResolved
  | RefreshRejected (e : apex_error).

Definition dispatch (ev : event) : M unit :=
  match ev with
  | Wired result => wiredProcess result
  | TableEdit target => handleTableEdit target
  | SaveChanges => handleSaveChanges
  | CancelChanges => handleCancelChanges
  | UpdateResolved => save_then_refresh
  | UpdateRejected e => finally (save_catch e) save_finally
  | RefreshResolved =>
      finally (catch save_then_regroup (save_catch (ApexError None))) save_finally
  | RefreshRejected e => finally (save_catch e) save_finally
  end.

(** The fields and the effects after a sequence of events; a handler
    that throws leaves the fields as they were when it threw. *)
Fixpoint run (evs : list event) (s : state) : state * list effect :=
  match evs with
  | [] => (s, [])
  | ev :: evs' =>
      let o := dispatch ev s in
      let '(s', out) := run evs' (final o) in
      (s', emitted o ++ out)
  end.

(** The calls of the persist service among some effects. *)
Definition persist_calls (out : list effect) : list (list record) :=
  omap (fun e => match e with UpdateProcessSettings rs => Some rs | _ => None end) out.

(** ** Notions the properties are stated with *)

(** Records as the columns type them: the name is text, and so is the
    group when there is one. *)
Definition is_string (v : jsval) : bool :=
  match v with VStr _ => true | _ => false end.

Definition well_typed (r : record) : bool :=
  is_string (field r "Name")
  && (negb (truthy (field r "Group__c")) || is_string (field r "Group__c")).

(** Groups in the order of their names. *)
Definition group_le (a b : group) : Prop :=
  match groupName a, groupName b with
  | VStr s, VStr t => (localeCompare s t <= 0)%Z
  | _, _ => False
  end.

(** The order a member is compared by: the sentinel stands in for an
    absent one. *)
Definition effective_order (r : record) : number :=
  ToNumber (js_or (field r "Order__c") (VNum (Int 999))).

(** By effective order, then by name. *)
Definition member_le (a b : record) : Prop :=
  match effective_order a, effective_order b, field a "Name", field b "Name" with
  | Int x, Int y, VStr s, VStr t => (x < y \/ (x = y /\ localeCompare s t <= 0))%Z
  | _, _, _, _ => False
  end.

(** The order of the numbers, [NaN] left out. *)
Definition num_le (a b : number) : Prop :=
  match a, b with
  | Int x, Int y => (x <= y)%Z
  | Inf true, (Int _ | Inf _) => True
  | (Int _ | Inf false), Inf false => True
  | _, _ => False
  end.

(** By effective order alone. *)
Definition effective_le (a b : record) : Prop :=
  num_le (effective_order a) (effective_order b).

(** An order that is absent, or a non-zero integer. *)
Definition plain_order (r : record) : bool :=
  match field r "Order__c" with
  | VUndef | VNull => true
  | VNum (Int z) => negb (z =? 0)%Z
  | _ => false
  end.

(** An order that is no text, other than the empty text an edit can
    leave. *)
Definition numeric_order (r : record) : bool :=
  match field r "Order__c" with
  | VStr s => String.eqb s ""
  | _ => true
  end.

(** Within a group, members of the same effective order carry the very
    same order value. *)
Definition same_order_same_value (pd : list record) : bool :=
  forallb (fun a => forallb (fun b =>
    implb (bool_decide (groupName_of a = groupName_of b)
           && bool_decide (effective_order a = effective_order b))
          (bool_decide (field a "Order__c" = field b "Order__c"))) pd) pd.

(** Orders ascending with the absent ones last, read literally: a
    present order is never preceded by an absent one. *)
Definition order_le_absent_last (a b : record) : Prop :=
  match field a "Order__c", field b "Order__c" with
  | VNum (Int x), VNum (Int y) => (x <= y)%Z
  | VNum (Int _), (VUndef | VNull) => True
  | (VUndef | VNull), (VUndef | VNull) => True
  | _, _ => False
  end.

(** A member without a usable order: absent, emptied, or malformed. *)
Definition unordered (r : record) : bool :=
  match field r "Order__c" with
  | VUndef | VNull | VNum NaN => true
  | VStr s => String.eqb s ""
  | _ => false
  end.

(** Malformed orders last, read literally: a member whose order is
    [NaN] is followed by unordered members only. *)
Definition malformed_last (members : list record) : Prop :=
  forall l1 a l2, members = l1 ++ a :: l2 -> field a "Order__c" = VNum NaN ->
    forallb unordered l2 = true.

(** The working records an edit of [recordId] rewrites, and the last of
    them. *)
Definition matching (recordId : string) (r : record) : bool :=
  strict_eq (field r "Id") (VStr recordId).

Definition last_matching (recordId : string) (records : list record) : option record :=
  last (filter (fun r => matching recordId r = true) records).

(** A save gated by the loading flag, read literally: while the flag is
    set, [handleSaveChanges] calls the persist service no more. *)
Definition save_gated (s : state) : Prop :=
  isLoading s = true -> persist_calls (emitted (handleSaveChanges s)) = [].

(** The invariant of the [forEach]: after the records [seen], the keys
    of [groupMap] are distinct, its arrays hold exactly the records
    seen, each under its own group name, and none is empty. *)
Definition grouped (groupMap : list (jsval * list record)) (seen : list record) : Prop :=
  NoDup (JSMap.keys groupMap)
  /\ Permutation (concat (JSMap.values groupMap)) (map with_statusClass seen)
  /\ Forall (fun entry =>
       snd entry <> [] /\ Forall (fun m => groupName_of m = fst entry) (snd entry))
     groupMap.

(** Sample records. *)
Definition sample (name : string) (grp order : jsval) (active : bool) : record :=
  <["Name" := VStr name]> (<["Group__c" := grp]> (<["Order__c" := order]>
    (<["Active__c" := VBool active]> ∅))).

(** The working set of the sort example: orders [3, null, 1, null]
    under the names [B, A, C, D], in one group. *)
Definition order_example : list record :=
  [sample "B" (VStr "G") (VNum (Int 3)) true; sample "A" (VStr "G") VNull true;
   sample "C" (VStr "G") (VNum (Int 1)) true; sample "D" (VStr "G") VNull true].

(** The three records of the load scenario: G1 with orders 1 (active)
    and 2 (inactive), G2 with order 1 (active). *)
Definition scenario : list record :=
  [sample "a" (VStr "G1") (VNum (Int 1)) true; sample "b" (VStr "G1") (VNum (Int 2)) false;
   sample "c" (VStr "G2") (VNum (Int 1)) true].

(** One group with an absent order and an order beyond the sentinel;
    one with the order zero. *)
Definition absent_and_1000 : list record :=
  [sample "A" (VStr "G") VNull true; sample "B" (VStr "G") (VNum (Int 1000)) true].

Definition zero_and_five : list record :=
  [sample "A" (VStr "G") (VNum (Int 0)) true; sample "B" (VStr "G") (VNum (Int 5)) true].

(** A fetch of two records in one group, and edits of them. *)
Definition two_records : wire_result :=
  WireResult (Some [sample "A" (VStr "G") (VNum (Int 5)) true;
                    sample "B" (VStr "G") (VNum (Int 1000)) false]) None.

Definition type_into (recordId fieldName text : string) : edit_target :=
  EditTarget recordId fieldName "text" false text.

Definition names_of (members : list record) : list jsval :=
  map (fun r => field r "Name") members.

(** An edit as the columns allow it: of an editable column, through a
    checkbox when the column is boolean and through another input
    otherwise. *)
Definition conformant (target : edit_target) : bool :=
  existsb (fun c =>
    String.eqb (fieldName c) (dataset_field target) && editable c
    && Bool.eqb (String.eqb (type c) "boolean")
                (String.eqb (target_type target) "checkbox")) columns.

(** What an edit makes of one working record. *)
Definition edit_one (target : edit_target) (r : record) : record :=
  if matching (dataset_id target) r
  then updated_record (dataset_field target) (edited_value target) r
  else r.

(** Events as they come when the records fetched are typed as the
    columns say and the edits are made as the columns allow. *)
Definition admissible (ev : event) : bool :=
  match ev with
  | Wired w => match data w with Some records => forallb well_typed records | None => true end
  | TableEdit target => conformant target
  | _ => true
  end.

(** Events whose errors, if any, come with a body. *)
Definition with_body (ev : event) : bool :=
  match ev with
  | Wired w =>
      match data w, error w with
      | None, Some e => match body e with Some _ => true | None => false end
      | _, _ => true
      end
  | UpdateRejected e | RefreshRejected e =>
      match body e with Some _ => true | None => false end
  | _ => true
  end.

(** Fetches whose orders are numbers or absent. *)
Definition numeric_fetch (ev : event) : bool :=
  match ev with
  | Wired w => match data w with Some records => forallb numeric_order records | None => true end
  | _ => true
  end.

(** The view shown is the view of the working set. *)
Definition in_sync (s : state) : Prop :=
  groupedView (processData s) = Normal (groupedProcessData s).


(** Every staged snapshot is the working record of its key, as it is
    now. *)
Definition staging_current (s : state) : Prop :=
  forall id r, JSMap.get id (changedRecords s) = Some r ->
    last_matching id (processData s) = Some r.

(** The fields hold records typed as the columns say, and the view
    shown is theirs. *)
Definition consistent (s : state) : Prop :=
  forallb well_typed (processData s) = true
  /\ forallb well_typed (originalData s) = true
  /\ in_sync s.


(** A session: load, edit an order, save with success and refresh, tick
    a checkbox, cancel. And one that ends with two edits staged. *)
Definition sample_run : list event :=
  [Wired two_records; TableEdit (type_into "A" "Order__c" "7"); SaveChanges;
   UpdateResolved; Wired two_records; RefreshResolved;
   TableEdit (EditTarget "B" "Active__c" "checkbox" true ""); CancelChanges].

Definition staged_run : list event :=
  [Wired two_records; TableEdit (type_into "A" "Name" "A1");
   TableEdit (type_into "B" "Order__c" "3")].

(** What is assumed of the host: its collation is a total preorder. *)
Hypothesis localeCompare_trans : forall a b c,
  (localeCompare a b <= 0 -> localeCompare b c <= 0 -> localeCompare a c <= 0)%Z.
Hypothesis localeCompare_total : forall a b,
  (0 < localeCompare a b -> localeCompare b a <= 0)%Z.


(** ** Numbers *)

Lemma round_double_safe (z : Z) :
  (- 9007199254740992 <= z <= 9007199254740992)%Z -> round_double z = Int z.
Proof.
  intros Hz. unfold round_double.
  destruct (Z.leb_spec (Z.abs z) 9007199254740992); [done|lia].
Qed.

(** Rounding keeps the sign, and gives a number. *)
Lemma round_double_sign (z : Z) :
  match round_double z with
  | Int m => Z.sgn m = Z.sgn z
  | Inf negative => negative = (z <? 0)%Z /\ z <> 0%Z
  | NaN => False
  end.
Proof.
  unfold round_double.
  destruct (Z.leb_spec (Z.abs z) 9007199254740992) as [|Hbig]; [done|].
  set (a := Z.abs z) in *. set (e := (Z.log2 a - 52)%Z).
  assert (Hlog : (53 <= Z.log2 a)%Z).
  { change 53%Z with (Z.log2 9007199254740992). apply Z.log2_le_mono. lia. }
  assert (He : (1 <= e)%Z) by (unfold e; lia).
  assert (Hpow : (0 < 2 ^ e <= a)%Z).
  { split; [apply Z.pow_pos_nonneg; lia|].
    transitivity (2 ^ Z.log2 a)%Z.
    - apply Z.pow_le_mono_r; unfold e; lia.
    - apply Z.log2_spec. lia. }
  assert (Hq : (0 < a / 2 ^ e)%Z) by (apply Z.div_str_pos; lia).
  match goal with |- context [(?q' * 2 ^ e)%Z] =>
    assert (Hm : (0 < q' * 2 ^ e)%Z);
    [apply Z.mul_pos_pos; [|lia];
     repeat match goal with |- context [if ?b then _ else _] => destruct b end; lia|]
  end.
  destruct (_ <=? _)%Z.
  - split; [done|lia].
  - rewrite Z.sgn_mul, (Z.sgn_pos _ Hm). lia.
Qed.

Lemma le0_round_double (z : Z) : le0 (round_double z) = (z <=? 0)%Z.
Proof.
  pose proof (round_double_sign z) as H.
  destruct (round_double z) as [m| |negative]; cbn [le0].
  - destruct (Z.leb_spec m 0), (Z.leb_spec z 0); lia.
  - done.
  - destruct H as [-> Hz]. destruct (Z.ltb_spec z 0), (Z.leb_spec z 0); lia.
Qed.

Lemma num_sub_Int (x y : Z) : num_sub (Int x) (Int y) = round_double (x - y).
Proof. reflexivity. Qed.

Lemma le0_num_sub_Int (x y : Z) : le0 (num_sub (Int x) (Int y)) = (x <=? y)%Z.
Proof.
  rewrite num_sub_Int, le0_round_double.
  destruct (Z.leb_spec (x - y) 0), (Z.leb_spec x y); lia.
Qed.

(** The comparison by difference agrees with the order of the numbers. *)
Lemma num_sub_le0 (a b : number) :
  a <> NaN -> b <> NaN ->
  if le0 (num_sub a b) then num_le a b else num_le b a.
Proof.
  intros Ha Hb. destruct a as [x| |[]], b as [y| |[]]; try done.
  rewrite le0_num_sub_Int. cbn [num_le]. destruct (Z.leb_spec x y); lia.
Qed.

Lemma num_le_refl (a : number) : a <> NaN -> num_le a a.
Proof. destruct a as [x| |[]]; try done. intros _. cbn. lia. Qed.

Lemma num_le_trans (a b c : number) : num_le a b -> num_le b c -> num_le a c.
Proof.
  destruct a as [x| |[]], b as [y| |[]], c as [z| |[]]; cbn; try done. lia.
Qed.
(** ** Facts about the JavaScript fragment *)

Section sort_facts.
Context {A : Type} (comparefn : A -> A -> completion number).

Lemma insert_sorted_perm x l l' :
  insert_sorted comparefn x l = Normal l' -> Permutation (x :: l) l'.
Proof.
  revert l'. induction l as [|y l IH]; intros l' H; simpl in H.
  - injection H as <-. reflexivity.
  - destruct (comparefn x y) as [c|]; simpl in H; [|discriminate].
    destruct (le0 c).
    + injection H as <-. reflexivity.
    + destruct (insert_sorted comparefn x l) as [l''|]; simpl in H; [|discriminate].
      injection H as <-. rewrite perm_swap. constructor. by apply IH.
Qed.

Lemma array_sort_perm l l' :
  array_sort comparefn l = Normal l' -> Permutation l l'.
Proof.
  revert l'. induction l as [|x l IH]; intros l' H; simpl in H.
  - injection H as <-. reflexivity.
  - destruct (array_sort comparefn l) as [s|]; simpl in H; [|discriminate].
    rewrite <- (insert_sorted_perm _ _ _ H). constructor. by apply IH.
Qed.

(** On a domain [D] where the comparator never throws, the sort
    returns. *)
Variable D : A -> Prop.
Hypothesis comparefn_returns :
  forall x y, D x -> D y -> exists c, comparefn x y = Normal c.

Lemma insert_sorted_returns x l :
  D x -> Forall D l -> exists l', insert_sorted comparefn x l = Normal l'.
Proof.
  intros Hx Hl. induction Hl as [|y l Hy Hl IH]; simpl; [by eexists|].
  destruct (comparefn_returns x y Hx Hy) as [c ->]. simpl.
  destruct (le0 c); [by eexists|].
  destruct IH as [l'' ->]. simpl. by eexists.
Qed.

Lemma array_sort_returns l :
  Forall D l -> exists l', array_sort comparefn l = Normal l'.
Proof.
  induction 1 as [|x l Hx Hl IH]; simpl; [by eexists|].
  destruct IH as [s Hs]. rewrite Hs. simpl.
  apply insert_sorted_returns; [done|].
  apply array_sort_perm in Hs. by rewrite <- Hs.
Qed.

(** When, on [D], a non-positive answer means [R x y], a positive
    one [R y x], and [R] is transitive, the result is sorted by
    [R]. *)
Variable R : A -> A -> Prop.
Hypothesis comparefn_le :
  forall x y c, D x -> D y -> comparefn x y = Normal c -> le0 c = true -> R x y.
Hypothesis comparefn_gt :
  forall x y c, D x -> D y -> comparefn x y = Normal c -> le0 c = false -> R y x.
Hypothesis R_trans :
  forall x y z, D x -> D y -> D z -> R x y -> R y z -> R x z.

Lemma insert_sorted_sorted x l l' :
  D x -> Forall D l -> StronglySorted R l ->
  insert_sorted comparefn x l = Normal l' -> StronglySorted R l'.
Proof.
  intros Hx Hl Hs. revert l'.
  induction Hs as [|y l Hs IH Hy]; intros l' H; simpl in H.
  - injection H as <-. repeat constructor.
  - apply Forall_cons in Hl as [HDy HDl].
    destruct (comparefn x y) as [c|] eqn:Hc; simpl in H; [|discriminate].
    destruct (le0 c) eqn:Hle.
    + injection H as <-.
      assert (Hxy : R x y) by eauto.
      constructor; [by constructor|].
      constructor; [done|].
      rewrite Forall_forall in Hy, HDl. apply Forall_forall.
      intros z Hz. apply (R_trans x y z); auto.
    + destruct (insert_sorted comparefn x l) as [l''|] eqn:Hins; simpl in H;
        [|discriminate].
      injection H as <-.
      constructor; [by apply IH|].
      apply insert_sorted_perm in Hins. rewrite <- Hins.
      constructor; [eauto|done].
Qed.

Lemma array_sort_sorted l l' :
  Forall D l -> array_sort comparefn l = Normal l' -> StronglySorted R l'.
Proof.
  intros Hl. revert l'.
  induction Hl as [|x l Hx Hl IH]; intros l' H; simpl in H.
  - injection H as <-. constructor.
  - destruct (array_sort comparefn l) as [s|] eqn:Hs; simpl in H; [|discriminate].
    apply (insert_sorted_sorted x s); auto.
    apply array_sort_perm in Hs. by rewrite <- Hs.
Qed.
End sort_facts.

Section jsmap_facts.
Context {K V : Type} `{EqDecision K}.
Implicit Types (m : list (K * V)) (k : K) (v : V).

Lemma jsmap_get_set_eq k v m : JSMap.get k (JSMap.set k v m) = Some v.
Proof.
  induction m as [|[k' v'] m IH]; simpl.
  - by rewrite decide_True.
  - destruct (decide (k = k')); simpl; [by rewrite decide_True|].
    by rewrite decide_False.
Qed.

Lemma jsmap_get_set_ne k k' v m :
  k <> k' -> JSMap.get k' (JSMap.set k v m) = JSMap.get k' m.
Proof.
  intros Hne. induction m as [|[k'' v''] m IH]; simpl.
  - rewrite decide_False; [done|congruence].
  - destruct (decide (k = k'')) as [->|]; simpl.
    + rewrite !decide_False; [done|congruence|congruence].
    + by rewrite IH.
Qed.

Lemma jsmap_get_None k m : JSMap.get k m = None <-> k ∉ JSMap.keys m.
Proof.
  induction m as [|[k' v'] m IH]; simpl.
  - split; [intros _; apply not_elem_of_nil|done].
  - rewrite not_elem_of_cons.
    destruct (decide (k = k')); [split; [done|by intros [? _]]|].
    rewrite IH. tauto.
Qed.


Lemma jsmap_set_absent k v m : JSMap.get k m = None -> JSMap.set k v m = m ++ [(k, v)].
Proof.
  induction m as [|[k' v'] m IH]; simpl; [done|].
  destruct (decide (k = k')); [done|]. intros H. by rewrite IH.
Qed.

(** Setting a present key replaces its value where it stands. *)
Lemma jsmap_set_present k v old m :
  JSMap.get k m = Some old ->
  exists m1 m2, m = m1 ++ (k, old) :: m2 /\ JSMap.set k v m = m1 ++ (k, v) :: m2.
Proof.
  induction m as [|[k' v'] m IH]; simpl; [done|].
  destruct (decide (k = k')) as [->|]; intros H.
  - injection H as ->. by exists [], m.
  - destruct (IH H) as (m1 & m2 & Hm & Hs). rewrite Hs, Hm.
    by exists ((k', v') :: m1), m2.
Qed.

Lemma jsmap_keys_set k v m :
  JSMap.keys (JSMap.set k v m)
  = match JSMap.get k m with
    | Some _ => JSMap.keys m
    | None => JSMap.keys m ++ [k]
    end.
Proof.
  induction m as [|[k' v'] m IH]; simpl; [done|].
  destruct (decide (k = k')) as [->|]; simpl; [done|].
  rewrite IH. by destruct (JSMap.get k m).
Qed.

Lemma jsmap_NoDup_set k v m :
  NoDup (JSMap.keys m) -> NoDup (JSMap.keys (JSMap.set k v m)).
Proof.
  intros Hm. rewrite jsmap_keys_set.
  destruct (JSMap.get k m) eqn:Hk; [done|].
  apply NoDup_app. split_and!; [done| |apply NoDup_singleton].
  intros x Hx ->%list_elem_of_singleton. by apply jsmap_get_None in Hk.
Qed.

End jsmap_facts.

(** ** The grouped view *)

Lemma field_with_statusClass process f :
  f <> "statusClass" -> field (with_statusClass process) f = field process f.
Proof. intros Hf. unfold field, with_statusClass. by rewrite lookup_insert_ne. Qed.

Lemma groupName_of_with_statusClass process :
  groupName_of (with_statusClass process) = groupName_of process.
Proof. unfold groupName_of. by rewrite field_with_statusClass. Qed.

(** What one round of the [forEach] does to [groupMap]. *)
Lemma add_to_group_unfold groupMap process :
  add_to_group groupMap process =
  match JSMap.get (groupName_of process) groupMap with
  | Some members =>
      JSMap.set (groupName_of process) (members ++ [with_statusClass process]) groupMap
  | None => groupMap ++ [(groupName_of process, [with_statusClass process])]
  end.
Proof.
  unfold add_to_group, JSMap.has.
  destruct (JSMap.get (groupName_of process) groupMap) as [members|] eqn:Hget; simpl.
  - by rewrite Hget.
  - rewrite jsmap_get_set_eq. simpl.
    rewrite (jsmap_set_absent _ [] groupMap Hget).
    induction groupMap as [|[k v] gm IH]; simpl.
    + by rewrite decide_True.
    + simpl in Hget. destruct (decide (groupName_of process = k)); [done|].
      by rewrite IH.
Qed.

Lemma grouped_add groupMap seen process :
  grouped groupMap seen -> grouped (add_to_group groupMap process) (seen ++ [process]).
Proof.
  intros (Hnd & Hperm & Hall). rewrite add_to_group_unfold.
  destruct (JSMap.get (groupName_of process) groupMap) as [members|] eqn:Hget.
  - split_and!.
    + by apply jsmap_NoDup_set.
    + destruct (jsmap_set_present _ (members ++ [with_statusClass process]) _ _ Hget)
        as (m1 & m2 & Hm & ->).
      rewrite Hm in Hperm. unfold JSMap.values in *.
      rewrite map_app, concat_app in *. simpl in *.
      rewrite map_app. simpl. rewrite <- Hperm.
      rewrite <- !app_assoc. do 2 apply Permutation_app_head.
      apply Permutation_app_comm.
    + destruct (jsmap_set_present _ (members ++ [with_statusClass process]) _ _ Hget)
        as (m1 & m2 & Hm & ->).
      rewrite Hm in Hall. apply Forall_app in Hall as [H1 H2].
      apply Forall_cons in H2 as [[_ Hk] H2]. simpl in Hk.
      apply Forall_app. split; [done|]. constructor; [|done]. simpl. split.
      * by destruct members.
      * apply Forall_app. split; [done|]. constructor; [|constructor].
        apply groupName_of_with_statusClass.
  - split_and!.
    + unfold JSMap.keys. rewrite map_app. simpl. apply NoDup_app. split_and!.
      * done.
      * intros x Hx ->%list_elem_of_singleton. by apply jsmap_get_None in Hget.
      * apply NoDup_singleton.
    + unfold JSMap.values in *. rewrite !map_app, concat_app. simpl.
      by rewrite Hperm.
    + apply Forall_app. split; [done|]. constructor; [|constructor]. simpl.
      split; [done|]. constructor; [|constructor].
      apply groupName_of_with_statusClass.
Qed.

Lemma grouped_fold pd groupMap seen :
  grouped groupMap seen -> grouped (fold_left add_to_group pd groupMap) (seen ++ pd).
Proof.
  revert groupMap seen. induction pd as [|process pd IH]; intros gm seen H; simpl.
  - by rewrite app_nil_r.
  - replace (seen ++ process :: pd) with ((seen ++ [process]) ++ pd)
      by (by rewrite <- app_assoc).
    apply IH. by apply grouped_add.
Qed.

Lemma grouped_all pd : grouped (fold_left add_to_group pd []) pd.
Proof.
  apply (grouped_fold pd [] []). split_and!; simpl; constructor.
Qed.

Lemma mapM_c_Forall2 {A B} (f : A -> completion B) l l' :
  mapM_c f l = Normal l' -> Forall2 (fun x y => f x = Normal y) l l'.
Proof.
  revert l'. induction l as [|x l IH]; intros l' H; simpl in H.
  - injection H as <-. constructor.
  - destruct (f x) as [y|] eqn:Hx; simpl in H; [|discriminate].
    destruct (mapM_c f l) as [ys|]; simpl in H; [|discriminate].
    injection H as <-. constructor; auto.
Qed.

Lemma mapM_c_returns {A B} (f : A -> completion B) l :
  Forall (fun x => exists y, f x = Normal y) l -> exists l', mapM_c f l = Normal l'.
Proof.
  induction 1 as [|x l [y Hy] _ [ys Hys]]; simpl; [by eexists|].
  rewrite Hy. simpl. rewrite Hys. simpl. by eexists.
Qed.

(** Everything [make_group] puts into a group. *)
Lemma make_group_Normal name members g :
  make_group (name, members) = Normal g ->
  groupName g = name
  /\ array_sort compareProcesses members = Normal (processes g)
  /\ allActive g = forallb is_active (processes g)
  /\ headerClass g =
       (if forallb is_active (processes g) then "group-header active-group-header"
        else if forallb (fun process => negb (is_active process)) (processes g)
             then "group-header inactive-group-header"
             else "group-header mixed-group-header")
  /\ statusText g =
       pretty (length (filter (fun process => is_active process = true) (processes g)))
       +:+ "/" +:+ pretty (length (processes g)) +:+ " Active".
Proof.
  unfold make_group.
  destruct (array_sort compareProcesses members) as [sorted|]; simpl; [|discriminate].
  intros H. injection H as <-. by simpl.
Qed.

(** The early return for an empty working set agrees with the general
    path. *)
Lemma groupedView_unfold pd :
  groupedView pd =
  (groups ← mapM_c make_group (fold_left add_to_group pd []);
   array_sort compareGroups groups).
Proof. unfold groupedView, JSMap.entries. by destruct pd. Qed.

Lemma Permutation_concat_map {A A' B} (f : A -> list B) (g : A' -> list B) l l' :
  Forall2 (fun x y => Permutation (f x) (g y)) l l' ->
  Permutation (concat (map f l)) (concat (map g l')).
Proof.
  induction 1 as [|x y l l' Hxy _ IH]; simpl; [done|]. by rewrite Hxy, IH.
Qed.

Lemma Permutation_concat {A} (l l' : list (list A)) :
  Permutation l l' -> Permutation (concat l) (concat l').
Proof.
  induction 1 as [|x l l' _ IH|x y l|l1 l2 l3 _ IH1 _ IH2]; simpl.
  - done.
  - by rewrite IH.
  - rewrite !app_assoc. apply Permutation_app_tail, Permutation_app_comm.
  - by rewrite IH1.
Qed.

Lemma NoDup_map_inj {A B} (f : A -> B) (l : list A) x y :
  NoDup (map f l) -> x ∈ l -> y ∈ l -> f x = f y -> x = y.
Proof.
  induction l as [|z l IH]; simpl; intros Hnd Hx Hy Hf.
  - by apply elem_of_nil in Hx.
  - apply NoDup_cons in Hnd as [Hz Hnd].
    apply elem_of_cons in Hx as [->|Hx]; apply elem_of_cons in Hy as [->|Hy].
    + done.
    + exfalso. apply Hz. rewrite Hf. by apply (list_elem_of_fmap_2 f).
    + exfalso. apply Hz. rewrite <- Hf. by apply (list_elem_of_fmap_2 f).
    + auto.
Qed.

(** What the groups of a computed view are made of. *)
Lemma groupedView_Normal pd gs :
  groupedView pd = Normal gs ->
  Permutation (concat (map processes gs)) (map with_statusClass pd)
  /\ NoDup (map groupName gs)
  /\ Forall (fun g =>
       processes g <> []
       /\ Forall (fun m => groupName_of m = groupName g) (processes g)
       /\ exists members, make_group (groupName g, members) = Normal g) gs.
Proof.
  rewrite groupedView_unfold.
  destruct (mapM_c make_group (fold_left add_to_group pd [])) as [gs0|] eqn:Hmap;
    simpl; [|discriminate].
  intros Hsort%array_sort_perm.
  apply mapM_c_Forall2 in Hmap.
  destruct (grouped_all pd) as (Hnd & Hperm & Hall).
  assert (Hmk : Forall2 (fun entry g =>
            groupName g = fst entry /\ Permutation (processes g) (snd entry)
            /\ make_group (groupName g, snd entry) = Normal g)
            (fold_left add_to_group pd []) gs0).
  { eapply Forall2_impl; [exact Hmap|]. intros [name members] g Hg. simpl in Hg.
    destruct (make_group_Normal _ _ _ Hg) as (Hn & Hs & _).
    simpl. split_and!; [done| |by rewrite Hn].
    symmetry. by apply array_sort_perm in Hs. }
  split_and!.
  - transitivity (concat (map processes gs0)).
    { by apply Permutation_concat, Permutation_map. }
    rewrite <- Hperm. unfold JSMap.values.
    apply (Permutation_concat_map processes snd).
    apply Forall2_flip. eapply Forall2_impl; [exact Hmk|]. by intros e g (_ & ? & _).
  - rewrite <- Hsort.
    replace (map groupName gs0) with (JSMap.keys (fold_left add_to_group pd [])); [done|].
    unfold JSMap.keys. clear -Hmk.
    induction Hmk as [|e g l l' (He & _) _ IH]; simpl; [done|]. by rewrite He, IH.
  - rewrite <- Hsort. clear Hsort Hperm Hnd Hmap.
    induction Hmk as [|e g l l' (He & Hp & Hm) _ IH]; [constructor|].
    apply Forall_cons in Hall as [[Hne Hk] Hall].
    constructor; [|auto]. split_and!.
    + intros Hnil. rewrite Hnil in Hp. apply Permutation_nil in Hp. done.
    + rewrite Hp, He. done.
    + eauto.
Qed.

Lemma well_typed_Name r : well_typed r = true -> is_string (field r "Name") = true.
Proof. unfold well_typed. by intros [? _]%andb_prop. Qed.

Lemma well_typed_groupName r : well_typed r = true -> is_string (groupName_of r) = true.
Proof.
  unfold well_typed, groupName_of, js_or. intros [_ H]%andb_prop.
  destruct (truthy (field r "Group__c")); simpl in *; done.
Qed.

Lemma compareProcesses_returns a b :
  is_string (field a "Name") = true -> exists c, compareProcesses a b = Normal c.
Proof.
  unfold compareProcesses. intros Ha.
  destruct (negb _); [by eexists|].
  destruct (field a "Name"); try done. by eexists.
Qed.

Lemma compareGroups_returns a b :
  is_string (groupName a) = true -> exists c, compareGroups a b = Normal c.
Proof.
  unfold compareGroups. intros Ha. destruct (groupName a); try done. by eexists.
Qed.

(** On records typed as the columns say, the recompute does not throw. *)
Lemma groupedView_returns pd :
  forallb well_typed pd = true -> exists gs, groupedView pd = Normal gs.
Proof.
  intros Hwt. rewrite forallb_forall in Hwt. rewrite groupedView_unfold.
  destruct (grouped_all pd) as (Hnd & Hperm & Hall).
  assert (Hmem : forall m, m ∈ concat (JSMap.values (fold_left add_to_group pd [])) ->
            exists r, r ∈ pd /\ m = with_statusClass r).
  { intros m Hm. rewrite Hperm in Hm. apply list_elem_of_fmap in Hm as (r & -> & Hr).
    eauto. }
  destruct (mapM_c_returns make_group (fold_left add_to_group pd [])) as [gs0 Hgs0].
  { apply Forall_forall. intros [name members] Hin. unfold make_group.
    destruct (array_sort_returns compareProcesses
                (fun r => is_string (field r "Name") = true)
                (fun x y Hx _ => compareProcesses_returns x y Hx) members) as [s ->].
    - apply Forall_forall. intros m Hm.
      destruct (Hmem m) as (r & Hr & ->).
      { apply list_elem_of_In, in_concat. exists members. split.
        - apply in_map_iff. exists (name, members). split; [done|].
          by apply list_elem_of_In.
        - by apply list_elem_of_In. }
      rewrite field_with_statusClass by done.
      apply well_typed_Name, Hwt. by apply list_elem_of_In.
    - simpl. by eexists. }
  rewrite Hgs0. simpl.
  apply (array_sort_returns compareGroups (fun g => is_string (groupName g) = true)
           (fun x y Hx _ => compareGroups_returns x y Hx)).
  apply mapM_c_Forall2 in Hgs0.
  clear Hnd Hperm. revert Hmem.
  induction Hgs0 as [|[name members] g l l' Hg _ IH]; intros Hmem; [constructor|].
  apply Forall_cons in Hall as [[Hne Hk] Hall]. simpl in *.
  constructor.
  - destruct (make_group_Normal _ _ _ Hg) as (-> & _).
    destruct members as [|m members]; [done|].
    apply Forall_cons in Hk as [<- _].
    destruct (Hmem m) as (r & Hr & ->); [apply elem_of_app; left; left|].
    rewrite groupName_of_with_statusClass.
    apply well_typed_groupName, Hwt. by apply list_elem_of_In.
  - apply IH; [done|]. intros m Hm. apply Hmem. apply elem_of_app. by right.
Qed.

(** The members of the groups are the working records, tagged. *)
Lemma groupedView_members pd gs g m :
  groupedView pd = Normal gs -> g ∈ gs -> m ∈ processes g ->
  exists r, r ∈ pd /\ m = with_statusClass r /\ groupName_of r = groupName g.
Proof.
  intros Hv Hg Hm. destruct (groupedView_Normal _ _ Hv) as (Hperm & _ & Hall).
  assert (Hin : m ∈ map with_statusClass pd).
  { rewrite <- Hperm. apply list_elem_of_In, in_concat. exists (processes g).
    split; [|by apply list_elem_of_In].
    apply in_map. by apply list_elem_of_In. }
  apply list_elem_of_fmap in Hin as (r & -> & Hr). exists r. split_and!; [done..|].
  rewrite Forall_forall in Hall. destruct (Hall g Hg) as (_ & Hk & _).
  rewrite Forall_forall in Hk. rewrite <- (Hk _ Hm).
  by rewrite groupName_of_with_statusClass.
Qed.

Lemma groupedView_names_string pd gs :
  forallb well_typed pd = true -> groupedView pd = Normal gs ->
  Forall (fun g => is_string (groupName g) = true) gs.
Proof.
  intros Hwt Hv. rewrite forallb_forall in Hwt. apply Forall_forall. intros g Hg.
  destruct (groupedView_Normal _ _ Hv) as (_ & _ & Hall).
  rewrite Forall_forall in Hall. destruct (Hall g Hg) as (Hne & _ & _).
  destruct (processes g) as [|m ms] eqn:Hp; [done|].
  destruct (groupedView_members pd gs g m Hv Hg) as (r & Hr & _ & <-).
  { rewrite Hp. left. }
  apply well_typed_groupName, Hwt. by apply list_elem_of_In.
Qed.

Lemma groupedView_sorted pd gs :
  forallb well_typed pd = true -> groupedView pd = Normal gs ->
  StronglySorted group_le gs.
Proof.
  intros Hwt Hv. pose proof (groupedView_names_string pd gs Hwt Hv) as Hstr.
  rewrite groupedView_unfold in Hv.
  destruct (mapM_c make_group (fold_left add_to_group pd [])) as [gs0|]; simpl in Hv;
    [|discriminate].
  apply (array_sort_sorted compareGroups (fun g => is_string (groupName g) = true)
           group_le) with (l := gs0); [| | | |done].
  - intros x y c Hx Hy Hc Hle. unfold compareGroups, group_le in *.
    destruct (groupName x) as [| | | |s]; try done.
    destruct (groupName y) as [| | | |t]; try done.
    simpl in Hc. injection Hc as <-. simpl in Hle. lia.
  - intros x y c Hx Hy Hc Hle. unfold compareGroups, group_le in *.
    destruct (groupName x) as [| | | |s]; try done.
    destruct (groupName y) as [| | | |t]; try done.
    simpl in Hc. injection Hc as <-. simpl in Hle.
    apply localeCompare_total. lia.
  - intros x y z Hx Hy Hz. unfold group_le.
    destruct (groupName x) as [| | | |s]; try done.
    destruct (groupName y) as [| | | |t]; try done.
    destruct (groupName z) as [| | | |u]; try done.
    apply localeCompare_trans.
  - apply array_sort_perm in Hv. by rewrite Hv.
Qed.

(** C1. For every working set of records typed as the columns say, the
    grouped view is computed and partitions the records: its members,
    taken over all groups, are exactly the working records (each tagged
    with its status class), none left out and none repeated; every
    record sits in the one group named by its group name, or by
    "Ungrouped" when it has none; group names are distinct; no group is
    empty; and the groups come in the order of their names. *)
Theorem groupedView_partitions (pd : list record) :
  forallb well_typed pd = true ->
  exists gs,
    groupedView pd = Normal gs
    /\ Permutation (concat (map processes gs)) (map with_statusClass pd)
    /\ NoDup (map groupName gs)
    /\ (forall g, g ∈ gs ->
          processes g <> []
          /\ forall m, m ∈ processes g ->
               js_or (field m "Group__c") (VStr "Ungrouped") = groupName g)
    /\ (forall r, r ∈ pd ->
          exists g, g ∈ gs
            /\ with_statusClass r ∈ processes g
            /\ groupName g = js_or (field r "Group__c") (VStr "Ungrouped")
            /\ forall g', g' ∈ gs -> with_statusClass r ∈ processes g' -> g' = g)
    /\ StronglySorted group_le gs.
Proof.
  intros Hwt. destruct (groupedView_returns pd Hwt) as [gs Hv]. exists gs.
  destruct (groupedView_Normal _ _ Hv) as (Hperm & Hnd & Hall).
  rewrite Forall_forall in Hall.
  assert (Hmem : forall g, g ∈ gs -> forall m, m ∈ processes g ->
            groupName_of m = groupName g).
  { intros g Hg m Hm. destruct (Hall g Hg) as (_ & Hk & _).
    rewrite Forall_forall in Hk. auto. }
  split_and!; [done..| | |by eapply groupedView_sorted].
  - intros g Hg. destruct (Hall g Hg) as (Hne & _ & _). split; [done|].
    apply (Hmem g Hg).
  - intros r Hr.
    assert (Hin : with_statusClass r ∈ concat (map processes gs)).
    { rewrite Hperm. by apply list_elem_of_fmap_2. }
    apply list_elem_of_In, in_concat in Hin as (ms & Hms & Hin).
    apply in_map_iff in Hms as (g & <- & Hg).
    apply list_elem_of_In in Hg, Hin.
    exists g. split_and!; [done..| |].
    + rewrite <- (Hmem g Hg _ Hin). apply groupName_of_with_statusClass.
    + intros g' Hg' Hin'. apply (NoDup_map_inj groupName gs); [done..|].
      by rewrite <- (Hmem g Hg _ Hin), <- (Hmem g' Hg' _ Hin').
Qed.

Lemma filter_all {A} (P : A -> Prop) `{forall x, Decision (P x)} (l : list A) :
  Forall P l -> filter P l = l.
Proof.
  induction 1 as [|x l Hx _ IH]; [done|].
  rewrite filter_cons, decide_True by done. by rewrite IH.
Qed.

Lemma filter_none {A} (P : A -> Prop) `{forall x, Decision (P x)} (l : list A) :
  Forall (fun x => ~ P x) l -> filter P l = [].
Proof.
  induction 1 as [|x l Hx _ IH]; [done|].
  by rewrite filter_cons, decide_False.
Qed.

(** C3. For every group of the view, which has N > 0 members of which A
    are active (their [Active__c] is truthy): the status text is
    "A/N Active"; when every member is active the header has the active
    style and the text is "N/N Active"; when none is, the inactive
    style and "0/N Active"; when some are and some are not, the mixed
    style. *)
Theorem header_classification (pd : list record) :
  forallb well_typed pd = true ->
  exists gs,
    groupedView pd = Normal gs
    /\ forall g, g ∈ gs ->
         let N := length (processes g) in
         let A := length (filter (fun m => truthy (field m "Active__c") = true)
                                 (processes g)) in
         (0 < N)%nat
         /\ statusText g = pretty A +:+ "/" +:+ pretty N +:+ " Active"
         /\ (Forall (fun m => truthy (field m "Active__c") = true) (processes g) ->
               headerClass g = "group-header active-group-header"
               /\ statusText g = pretty N +:+ "/" +:+ pretty N +:+ " Active")
         /\ (Forall (fun m => truthy (field m "Active__c") = false) (processes g) ->
               headerClass g = "group-header inactive-group-header"
               /\ statusText g = "0/" +:+ pretty N +:+ " Active")
         /\ (Exists (fun m => truthy (field m "Active__c") = true) (processes g) ->
             Exists (fun m => truthy (field m "Active__c") = false) (processes g) ->
               headerClass g = "group-header mixed-group-header").
Proof.
  intros Hwt. destruct (groupedView_returns pd Hwt) as [gs Hv]. exists gs.
  split; [done|]. intros g Hg.
  destruct (groupedView_Normal _ _ Hv) as (_ & _ & Hall).
  rewrite Forall_forall in Hall.
  destruct (Hall g Hg) as (Hne & _ & members & Hmk).
  destruct (make_group_Normal _ _ _ Hmk) as (_ & _ & _ & Hhdr & Htxt).
  unfold is_active in Hhdr, Htxt.
  cbv zeta. split_and!.
  - destruct (processes g); simpl; [done|lia].
  - done.
  - intros Hact. split.
    + rewrite Hhdr.
      match goal with |- (if ?b then _ else _) = _ => destruct b eqn:Hall1 end; [done|].
      apply not_true_iff_false in Hall1. destruct Hall1.
      apply forallb_forall. intros m Hm.
      rewrite Forall_forall in Hact. by apply Hact, list_elem_of_In.
    + by rewrite Htxt, filter_all.
  - intros Hin. split.
    + rewrite Hhdr.
      match goal with |- (if ?b then _ else _) = _ => destruct b eqn:Hall1 end.
      * destruct (processes g) as [|m ms]; [done|].
        apply Forall_cons in Hin as [Hm _]. simpl in Hall1. by rewrite Hm in Hall1.
      * match goal with |- (if ?b then _ else _) = _ => destruct b eqn:Hall2 end; [done|].
        apply not_true_iff_false in Hall2. destruct Hall2.
        apply forallb_forall. intros m Hm.
        rewrite Forall_forall in Hin. by rewrite (Hin m) by by apply list_elem_of_In.
    + rewrite Htxt, filter_none; [done|].
      eapply Forall_impl; [exact Hin|]. intros m Hm. by rewrite Hm.
  - intros Hsome Hnone. rewrite Hhdr.
    match goal with |- (if ?b then _ else _) = _ => destruct b eqn:Hall1 end.
    + rewrite forallb_forall in Hall1.
      apply Exists_exists in Hnone as (m & Hm & Hact).
      specialize (Hall1 m ltac:(by apply list_elem_of_In)). by rewrite Hact in Hall1.
    + match goal with |- (if ?b then _ else _) = _ => destruct b eqn:Hall2 end; [|done].
      rewrite forallb_forall in Hall2.
      apply Exists_exists in Hsome as (m & Hm & Hact).
      specialize (Hall2 m ltac:(by apply list_elem_of_In)). by rewrite Hact in Hall2.
Qed.

(** ** The order of the members of a group *)

Lemma strict_eq_true a b : strict_eq a b = true -> a = b.
Proof.
  unfold strict_eq.
  destruct a as [| | |[| |[]]|], b as [| | |[| |[]]|]; try done; by intros ?%bool_decide_eq_true.
Qed.

Lemma effective_order_Int r :
  plain_order r = true -> exists x, effective_order r = Int x.
Proof.
  unfold plain_order, effective_order, js_or.
  destruct (field r "Order__c") as [| |[]|[z| |n]|s]; simpl; try done; try by eexists.
  destruct (negb (z =? 0)%Z); by eexists.
Qed.

(** The effective order is a number, whatever is typed. *)
Lemma effective_order_number r :
  numeric_order r = true -> effective_order r <> NaN.
Proof.
  unfold numeric_order, effective_order, js_or.
  destruct (field r "Order__c") as [| |[]|[z| |n]|s]; simpl; try done.
  - by destruct (negb (z =? 0)%Z).
  - by intros ->%String.eqb_eq.
Qed.

Lemma effective_order_with_statusClass r :
  effective_order (with_statusClass r) = effective_order r.
Proof. unfold effective_order. by rewrite field_with_statusClass. Qed.

(** Whatever the order values, the comparator sorts by effective
    order. *)
Lemma members_sorted_effective pd gs g :
  forallb numeric_order pd = true -> groupedView pd = Normal gs -> g ∈ gs ->
  StronglySorted effective_le (processes g).
Proof.
  intros Hnum Hv Hg. rewrite forallb_forall in Hnum.
  destruct (groupedView_Normal _ _ Hv) as (_ & _ & Hall).
  rewrite Forall_forall in Hall. destruct (Hall g Hg) as (_ & _ & members & Hmk).
  destruct (make_group_Normal _ _ _ Hmk) as (_ & Hsort & _).
  apply (array_sort_sorted compareProcesses (fun r => numeric_order r = true)
           effective_le) with (l := members); [| | | |done].
  - intros x y c Hx Hy Hc Hle. unfold effective_le.
    pose proof (effective_order_number x Hx) as Hex.
    pose proof (effective_order_number y Hy) as Hey.
    unfold compareProcesses in Hc. fold (effective_order x) (effective_order y) in Hc.
    destruct (strict_eq _ _) eqn:Heq; cbn [negb] in Hc.
    + apply strict_eq_true in Heq. unfold effective_order. rewrite Heq.
      apply num_le_refl, Hey.
    + injection Hc as <-.
      pose proof (num_sub_le0 _ _ Hex Hey) as H. by rewrite Hle in H.
  - intros x y c Hx Hy Hc Hle. unfold effective_le.
    pose proof (effective_order_number x Hx) as Hex.
    pose proof (effective_order_number y Hy) as Hey.
    unfold compareProcesses in Hc. fold (effective_order x) (effective_order y) in Hc.
    destruct (strict_eq _ _) eqn:Heq; cbn [negb] in Hc.
    + apply strict_eq_true in Heq. unfold effective_order. rewrite Heq.
      apply num_le_refl, Hey.
    + injection Hc as <-.
      pose proof (num_sub_le0 _ _ Hex Hey) as H. by rewrite Hle in H.
  - intros x y z _ _ _. unfold effective_le. apply num_le_trans.
  - apply Forall_forall. intros m Hm.
    apply array_sort_perm in Hsort.
    destruct (groupedView_members pd gs g m Hv Hg) as (r & Hr & -> & _).
    { by rewrite <- Hsort. }
    unfold numeric_order. rewrite field_with_statusClass by done.
    apply Hnum. by apply list_elem_of_In.
Qed.

Lemma plain_order_numeric r : plain_order r = true -> numeric_order r = true.
Proof.
  unfold plain_order, numeric_order. by destruct (field r "Order__c") as [| | |[| |[]]|].
Qed.

Lemma plain_order_strict_eq r :
  plain_order r = true -> strict_eq (field r "Order__c") (field r "Order__c") = true.
Proof.
  unfold plain_order, strict_eq.
  destruct (field r "Order__c") as [| | |[| |[]]|]; try done;
    intros _; by apply bool_decide_eq_true.
Qed.

Lemma same_order_same_value_elim pd a b :
  same_order_same_value pd = true -> a ∈ pd -> b ∈ pd ->
  groupName_of a = groupName_of b -> effective_order a = effective_order b ->
  field a "Order__c" = field b "Order__c".
Proof.
  unfold same_order_same_value. intros H Ha Hb Hg He.
  rewrite forallb_forall in H. specialize (H a ltac:(by apply list_elem_of_In)).
  rewrite forallb_forall in H. specialize (H b ltac:(by apply list_elem_of_In)).
  rewrite (bool_decide_eq_true_2 _ Hg), (bool_decide_eq_true_2 _ He) in H.
  simpl in H. by apply bool_decide_eq_true in H.
Qed.

(** With plain orders, consistently represented, the comparator is the
    order by effective order and then by name. *)
Lemma members_sorted_member_le pd gs g :
  forallb well_typed pd = true -> forallb plain_order pd = true ->
  same_order_same_value pd = true ->
  groupedView pd = Normal gs -> g ∈ gs ->
  StronglySorted member_le (processes g).
Proof.
  intros Hwt Hplain Hsame Hv Hg.
  rewrite forallb_forall in Hwt. rewrite forallb_forall in Hplain.
  destruct (groupedView_Normal _ _ Hv) as (_ & _ & Hall).
  rewrite Forall_forall in Hall. destruct (Hall g Hg) as (_ & _ & members & Hmk).
  destruct (make_group_Normal _ _ _ Hmk) as (_ & Hsort & _).
  set (D := fun m : record =>
         exists r, r ∈ pd /\ m = with_statusClass r /\ groupName_of r = groupName g).
  assert (HD : forall m, D m ->
            (exists s, field m "Name" = VStr s)
            /\ (exists x, effective_order m = Int x)
            /\ strict_eq (field m "Order__c") (field m "Order__c") = true).
  { intros m (r & Hr & -> & _). apply list_elem_of_In in Hr.
    rewrite effective_order_with_statusClass, !field_with_statusClass by done.
    split_and!.
    - pose proof (well_typed_Name r (Hwt r Hr)) as Hn.
      destruct (field r "Name"); try done. by eexists.
    - by apply effective_order_Int, Hplain.
    - by apply plain_order_strict_eq, Hplain. }
  assert (Hsv : forall x y, D x -> D y -> effective_order x = effective_order y ->
            field x "Order__c" = field y "Order__c").
  { intros x y (rx & Hrx & -> & Hgx) (ry & Hry & -> & Hgy).
    rewrite !effective_order_with_statusClass, !field_with_statusClass by done.
    apply (same_order_same_value_elim pd); [done..|]. by rewrite Hgx, Hgy. }
  apply (array_sort_sorted compareProcesses D member_le) with (l := members);
    [| | | |done].
  - intros x y c Hx Hy Hc Hle. unfold member_le.
    destruct (HD x Hx) as ([s Hs] & [ex Hex] & Hxx), (HD y Hy) as ([t Ht] & [ey Hey] & _).
    unfold compareProcesses in Hc. fold (effective_order x) (effective_order y) in Hc.
    rewrite Hex, Hey, Hs, Ht. rewrite Hex, Hey, Hs, Ht in Hc.
    destruct (strict_eq (field x "Order__c") (field y "Order__c")) eqn:Heq;
      cbn [negb js_localeCompare ToString] in Hc.
    + injection Hc as <-. cbn [le0] in Hle. apply Z.leb_le in Hle. right. split; [|lia].
      apply strict_eq_true in Heq. unfold effective_order in Hex, Hey.
      rewrite Heq, Hey in Hex. by injection Hex.
    + injection Hc as <-. change (le0 (num_sub (Int ex) (Int ey)) = true) in Hle.
      rewrite le0_num_sub_Int in Hle. apply Z.leb_le in Hle.
      destruct (decide (ex = ey)) as [->|]; [|lia].
      rewrite <- (Hsv x y Hx Hy), Hxx in Heq; [done|by rewrite Hex, Hey].
  - intros x y c Hx Hy Hc Hle. unfold member_le.
    destruct (HD x Hx) as ([s Hs] & [ex Hex] & Hxx), (HD y Hy) as ([t Ht] & [ey Hey] & _).
    unfold compareProcesses in Hc. fold (effective_order x) (effective_order y) in Hc.
    rewrite Hex, Hey, Hs, Ht. rewrite Hex, Hey, Hs, Ht in Hc.
    destruct (strict_eq (field x "Order__c") (field y "Order__c")) eqn:Heq;
      cbn [negb js_localeCompare ToString] in Hc.
    + injection Hc as <-. cbn [le0] in Hle. apply Z.leb_gt in Hle. right.
      apply strict_eq_true in Heq. unfold effective_order in Hex, Hey.
      rewrite Heq, Hey in Hex. injection Hex as ->. split; [done|].
      apply localeCompare_total. lia.
    + injection Hc as <-. change (le0 (num_sub (Int ex) (Int ey)) = false) in Hle.
      rewrite le0_num_sub_Int in Hle. apply Z.leb_gt in Hle. lia.
  - intros x y z Hx Hy Hz. unfold member_le.
    destruct (HD x Hx) as ([s ->] & [ex ->] & _), (HD y Hy) as ([t ->] & [ey ->] & _),
             (HD z Hz) as ([u ->] & [ez ->] & _).
    intros [?|[-> Hst]] [?|[-> Htu]]; [lia..|].
    right. split; [done|]. by apply (localeCompare_trans s t u).
  - apply Forall_forall. intros m Hm.
    apply array_sort_perm in Hsort.
    destruct (groupedView_members pd gs g m Hv Hg) as (r & Hr & -> & Hgr).
    { by rewrite <- Hsort. }
    by exists r.
Qed.

(** The sort of the example, comparison by comparison. *)
Lemma order_example_sorted :
  (localeCompare "A" "D" <= 0)%Z ->
  array_sort compareProcesses (map with_statusClass order_example)
  = Normal (map with_statusClass
      [sample "C" (VStr "G") (VNum (Int 1)) true; sample "B" (VStr "G") (VNum (Int 3)) true;
       sample "A" (VStr "G") VNull true; sample "D" (VStr "G") VNull true]).
Proof.
  intros HAD. unfold order_example. simpl map.
  set (rB := with_statusClass (sample "B" _ _ _)).
  set (rA := with_statusClass (sample "A" _ _ _)).
  set (rC := with_statusClass (sample "C" _ _ _)).
  set (rD := with_statusClass (sample "D" _ _ _)).
  assert (HCD : compareProcesses rC rD = Normal (Int (-998))) by (vm_compute; reflexivity).
  assert (HAC : compareProcesses rA rC = Normal (Int 998)) by (vm_compute; reflexivity).
  assert (HAD' : compareProcesses rA rD = Normal (Int (localeCompare "A" "D")))
    by (vm_compute; reflexivity).
  assert (HBC : compareProcesses rB rC = Normal (Int 2)) by (vm_compute; reflexivity).
  assert (HBA : compareProcesses rB rA = Normal (Int (-996))) by (vm_compute; reflexivity).
  cbn [array_sort insert_sorted mbind completion_bind].
  rewrite HCD. cbn [array_sort insert_sorted mbind completion_bind le0 Z.leb Z.compare].
  rewrite HAC. cbn [array_sort insert_sorted mbind completion_bind le0 Z.leb Z.compare].
  rewrite HAD'. cbn [array_sort insert_sorted mbind completion_bind le0].
  replace (localeCompare "A" "D" <=? 0)%Z with true by (symmetry; by apply Z.leb_le).
  cbn [array_sort insert_sorted mbind completion_bind le0 Z.leb Z.compare].
  rewrite HBC. cbn [array_sort insert_sorted mbind completion_bind le0 Z.leb Z.compare].
  rewrite HBA. cbn [array_sort insert_sorted mbind completion_bind le0 Z.leb Z.compare].
  reflexivity.
Qed.

(** C2 (amended). In every group of the view the members are sorted
    ascending by effective order, where an absent (undefined or null)
    order counts as the sentinel 999, so that unordered records come
    after the orders below 999 (not after larger ones), members whose
    order values are identical being ordered by name. This is for
    working sets whose orders are absent or non-zero integers, members
    of a group with the same effective order carrying the same order
    value. In particular, orders [3, null, 1, null] under the names
    [B, A, C, D] in one group come out as [C, B, A, D]. *)
Theorem members_sorted_by_order_then_name :
  (forall pd : list record,
     forallb well_typed pd = true -> forallb plain_order pd = true ->
     same_order_same_value pd = true ->
     exists gs,
       groupedView pd = Normal gs
       /\ forall g, g ∈ gs -> StronglySorted member_le (processes g))
  /\ ((localeCompare "A" "D" <= 0)%Z ->
      exists g,
        groupedView order_example = Normal [g]
        /\ names_of (processes g) = [VStr "C"; VStr "B"; VStr "A"; VStr "D"]).
Proof.
  split.
  - intros pd Hwt Hplain Hsame.
    destruct (groupedView_returns pd Hwt) as [gs Hv]. exists gs. split; [done|].
    intros g Hg. by apply (members_sorted_member_le pd gs g).
  - intros HAD. rewrite groupedView_unfold.
    assert (Hfold : fold_left add_to_group order_example []
                    = [(VStr "G", map with_statusClass order_example)])
      by reflexivity.
    rewrite Hfold.
    cbn [mapM_c mbind completion_bind]. unfold make_group.
    rewrite (order_example_sorted HAD). cbn [mapM_c mbind completion_bind].
    eexists. split; [reflexivity|]. vm_compute. reflexivity.
Qed.

(** ** The handlers *)

Lemma processGroupedData_unfold s :
  processGroupedData s =
  match groupedView (processData s) with
  | Normal gs => Outcome (Normal tt) (set_groupedProcessData gs s) []
  | ThrowTypeError => Outcome ThrowTypeError s []
  end.
Proof.
  unfold processGroupedData, mbind, M_bind, read, lift, assign. simpl.
  by destruct (groupedView (processData s)).
Qed.

(** The recompute writes [groupedProcessData] and nothing else. *)
Lemma processGroupedData_frame s :
  let s' := final (processGroupedData s) in
  processData s' = processData s /\ originalData s' = originalData s
  /\ changedRecords s' = changedRecords s /\ isLoading s' = isLoading s
  /\ wiredProcessResult s' = wiredProcessResult s
  /\ emitted (processGroupedData s) = [].
Proof.
  rewrite processGroupedData_unfold. by destruct (groupedView (processData s)).
Qed.

Lemma jsmap_set_set {V} (k : string) (v w : V) m :
  JSMap.set k v (JSMap.set k w m) = JSMap.set k v m.
Proof.
  induction m as [|[k' v'] m IH]; simpl.
  - by rewrite decide_True.
  - destruct (decide (k = k')) as [->|]; simpl.
    + by rewrite decide_True.
    + by rewrite decide_False, IH.
Qed.

Lemma edit_records_fst recordId fieldName fieldValue records changed :
  fst (edit_records recordId fieldName fieldValue records changed)
  = map (fun r => if matching recordId r
                  then updated_record fieldName fieldValue r else r) records.
Proof.
  revert changed. induction records as [|r rest IH]; intros changed; simpl; [done|].
  unfold matching at 1.
  destruct (strict_eq (field r "Id") (VStr recordId)).
  - specialize (IH (JSMap.set recordId (updated_record fieldName fieldValue r) changed)).
    destruct (edit_records _ _ _ rest _). simpl in *. by rewrite IH.
  - specialize (IH changed).
    destruct (edit_records _ _ _ rest _). simpl in *. by rewrite IH.
Qed.

Lemma edit_records_snd recordId fieldName fieldValue records changed :
  snd (edit_records recordId fieldName fieldValue records changed)
  = match last_matching recordId records with
    | Some r => JSMap.set recordId (updated_record fieldName fieldValue r) changed
    | None => changed
    end.
Proof.
  unfold last_matching. revert changed.
  induction records as [|r rest IH]; intros changed; simpl; [done|].
  rewrite filter_cons.
  change (strict_eq (field r "Id") (VStr recordId)) with (matching recordId r).
  destruct (decide (matching recordId r = true)) as [Hm|Hm].
  - rewrite Hm.
    specialize (IH (JSMap.set recordId (updated_record fieldName fieldValue r) changed)).
    destruct (edit_records _ _ _ rest _) as [rest' changed']. simpl in IH. simpl snd.
    rewrite IH. clear IH.
    destruct (filter _ rest) as [|r' rs]; [done|].
    change (last (r :: r' :: rs)) with (last (r' :: rs)).
    destruct (last (r' :: rs)) eqn:Hl; [by rewrite jsmap_set_set|].
    by apply last_None in Hl.
  - apply not_true_is_false in Hm. rewrite Hm.
    specialize (IH changed). destruct (edit_records _ _ _ rest _). simpl in *.
    by rewrite IH.
Qed.

(** What an inline edit leaves in the fields. *)
Lemma handleTableEdit_final target s :
  let s' := final (handleTableEdit target s) in
  let recordId := dataset_id target in
  let fieldName := dataset_field target in
  let fieldValue := edited_value target in
  processData s' = map (fun r => if matching recordId r
                                 then updated_record fieldName fieldValue r else r)
                       (processData s)
  /\ changedRecords s' =
       match last_matching recordId (processData s) with
       | Some r => JSMap.set recordId (updated_record fieldName fieldValue r)
                             (changedRecords s)
       | None => changedRecords s
       end
  /\ originalData s' = originalData s /\ isLoading s' = isLoading s
  /\ wiredProcessResult s' = wiredProcessResult s
  /\ emitted (handleTableEdit target s) = [].
Proof.
  cbv zeta.
  rewrite <- (edit_records_fst _ _ _ _ (changedRecords s)), <- edit_records_snd.
  cbv [handleTableEdit mbind M_bind read assign]. cbn [result final emitted].
  destruct (edit_records _ _ _ (processData s) (changedRecords s)) as [pd' cr'].
  cbn [result final emitted fst snd].
  destruct (processGroupedData_frame (set_processData pd' (set_changedRecords cr' s)))
    as (Hpd & Hod & Hcr & Hl & Hw & Hout).
  destruct (processGroupedData _) as [res fin out]. by destruct res.
Qed.

Lemma handleSaveChanges_unfold s :
  handleSaveChanges s =
  if (JSMap.size (changedRecords s) =? 0)%nat
  then Outcome (Normal tt) s [ShowToast "Info" "No changes to save" "info"]
  else Outcome (Normal tt) (set_isLoading true s)
               [UpdateProcessSettings (JSMap.values (changedRecords s))].
Proof.
  unfold handleSaveChanges, mbind, M_bind, read. simpl.
  by destruct (JSMap.size (changedRecords s) =? 0)%nat.
Qed.

Lemma handleCancelChanges_final s :
  let s' := final (handleCancelChanges s) in
  processData s' = map working_copy (originalData s)
  /\ changedRecords s' = [] /\ originalData s' = originalData s
  /\ isLoading s' = isLoading s
  /\ persist_calls (emitted (handleCancelChanges s)) = [].
Proof.
  cbv [handleCancelChanges mbind M_bind read assign showToast emit].
  cbn [result final emitted].
  set (s1 := set_changedRecords _ _).
  destruct (processGroupedData_frame s1) as (Hpd & Hod & Hcr & Hl & Hw & Hout).
  destruct (processGroupedData s1) as [res fin out]. simpl in *. subst out.
  by destruct res.
Qed.

Lemma wiredProcess_data_final records e s :
  let s' := final (wiredProcess (WireResult (Some records) e) s) in
  processData s' = map working_copy records /\ originalData s' = records
  /\ isLoading s' = isLoading s
  /\ emitted (wiredProcess (WireResult (Some records) e) s) = [].
Proof.
  cbv [wiredProcess mbind M_bind read assign data]. cbn [result final emitted].
  set (s1 := set_processData _ _).
  destruct (processGroupedData_frame s1) as (Hpd & Hod & Hcr & Hl & Hw & Hout).
  destruct (processGroupedData s1) as [res fin out]. simpl in *. subst out.
  rewrite map_id in Hod. by destruct res.
Qed.

Lemma save_catch_message msg s :
  save_catch (ApexError (Some (VStr msg))) s
  = Outcome (Normal tt) s [ShowToast "Error" ("Error updating records: " +:+ msg) "error"].
Proof. reflexivity. Qed.

Lemma run_app evs1 evs2 s :
  run (evs1 ++ evs2) s =
  (fst (run evs2 (fst (run evs1 s))), snd (run evs1 s) ++ snd (run evs2 (fst (run evs1 s)))).
Proof.
  revert s. induction evs1 as [|ev evs1 IH]; intros s; simpl.
  - by destruct (run evs2 s).
  - rewrite IH. destruct (run evs1 _). simpl. by rewrite app_assoc.
Qed.

Lemma run_cons ev evs s :
  run (ev :: evs) s =
  (fst (run evs (final (dispatch ev s))),
   emitted (dispatch ev s) ++ snd (run evs (final (dispatch ev s)))).
Proof. simpl. by destruct (run evs _). Qed.

(** A run of edits: the baseline and the loading flag stay, nothing is
    emitted. *)
Lemma run_edits_frame edits s :
  originalData (fst (run (map TableEdit edits) s)) = originalData s
  /\ isLoading (fst (run (map TableEdit edits) s)) = isLoading s
  /\ snd (run (map TableEdit edits) s) = [].
Proof.
  revert s. induction edits as [|e edits IH]; intros s; simpl; [done|].
  destruct (handleTableEdit_final e s) as (_ & _ & Ho & Hl & _ & Hout).
  destruct (IH (final (handleTableEdit e s))) as (IHo & IHl & IHout).
  destruct (run (map TableEdit edits) _). simpl in *.
  by rewrite IHo, IHl, Hout, IHout.
Qed.

Lemma run_one ev s : run [ev] s = (final (dispatch ev s), emitted (dispatch ev s)).
Proof. simpl. by rewrite app_nil_r. Qed.

Lemma persist_calls_app out1 out2 :
  persist_calls (out1 ++ out2) = persist_calls out1 ++ persist_calls out2.
Proof.
  unfold persist_calls. induction out1 as [|x out1 IH]; [done|].
  destruct x; simpl; [exact IH|f_equal; exact IH|exact IH].
Qed.

Lemma working_copy_lookup r f :
  f <> "Id" -> f <> "rowClass" -> working_copy r !! f = r !! f.
Proof. intros H1 H2. unfold working_copy. by rewrite !lookup_insert_ne. Qed.

(** C4. After a load and any sequence of edits, cancelling leaves no
    pending change and a working set equal to the one the load
    produced, which carries every fetched field unchanged (next to the
    derived identifier and row class); and no call of the persist
    service has been made. *)
Theorem discard_restores_baseline (s0 : state) (records : list record)
    (e : option apex_error) (edits : list edit_target) :
  let load := Wired (WireResult (Some records) e) in
  let loaded := fst (run [load] s0) in
  let trace := run ([load] ++ map TableEdit edits ++ [CancelChanges]) s0 in
  hasChanges (fst trace) = false
  /\ processData (fst trace) = processData loaded
  /\ processData (fst trace) = map working_copy records
  /\ (forall i r, records !! i = Some r ->
        exists w, processData (fst trace) !! i = Some w
          /\ forall f, f <> "Id" -> f <> "rowClass" -> w !! f = r !! f)
  /\ persist_calls (snd trace) = [].
Proof.
  cbv zeta. rewrite !run_app, !run_one. cbn [fst snd dispatch].
  set (w := WireResult (Some records) e).
  destruct (wiredProcess_data_final records e s0) as (Hpd & Hod & _ & Hout).
  fold w in Hpd, Hod, Hout.
  destruct (run_edits_frame edits (final (wiredProcess w s0))) as (Hod' & _ & Hout').
  set (s2 := fst (run (map TableEdit edits) (final (wiredProcess w s0)))) in *.
  destruct (handleCancelChanges_final s2) as (Hpd2 & Hcr2 & _ & _ & Hout2).
  cbv zeta in Hpd2, Hcr2. rewrite Hod', Hod in Hpd2.
  split_and!.
  - unfold hasChanges. by rewrite Hcr2.
  - by rewrite Hpd2, Hpd.
  - done.
  - intros i r Hr. rewrite Hpd2. exists (working_copy r). split.
    + change (map working_copy records) with (working_copy <$> records).
      by rewrite list_lookup_fmap, Hr.
    + apply working_copy_lookup.
  - by rewrite Hout, Hout', !persist_calls_app, Hout2.
Qed.

(** C10. An edit leaves the baseline as it is, and every working
    record other than those with the targeted identifier as it is, in
    place; so a later cancel restores what it would have restored
    before the edit. *)
Theorem edit_frame (target : edit_target) (s : state) :
  let s' := final (handleTableEdit target s) in
  originalData s' = originalData s
  /\ length (processData s') = length (processData s)
  /\ (forall i r, processData s !! i = Some r ->
        strict_eq (field r "Id") (VStr (dataset_id target)) = false ->
        processData s' !! i = Some r)
  /\ processData (final (handleCancelChanges s'))
     = processData (final (handleCancelChanges s)).
Proof.
  destruct (handleTableEdit_final target s) as (Hpd & _ & Hod & _).
  cbv zeta in *. split_and!.
  - done.
  - by rewrite Hpd, length_map.
  - intros i r Hr Hne. rewrite Hpd.
    change (map ?f ?l) with (f <$> l). rewrite list_lookup_fmap, Hr. simpl.
    unfold matching. by rewrite Hne.
  - destruct (handleCancelChanges_final s) as (-> & _).
    destruct (handleCancelChanges_final (final (handleTableEdit target s))) as (-> & _).
    by rewrite Hod.
Qed.


(** ** The value an edit writes, and the record it leaves *)


Lemma edited_value_text target :
  target_type target <> "checkbox" -> dataset_field target <> "Order__c" ->
  edited_value target = VStr (value target).
Proof.
  intros Ht Hf. unfold edited_value.
  apply String.eqb_neq in Ht, Hf. by rewrite Ht, Hf.
Qed.

Lemma edited_value_order target :
  dataset_field target = "Order__c" -> target_type target <> "checkbox" ->
  value target <> "" ->
  edited_value target = VNum (parseInt (value target)).
Proof.
  intros Hf Ht Hv. unfold edited_value. rewrite Hf.
  apply String.eqb_neq in Ht. rewrite Ht. simpl.
  rewrite bool_decide_eq_false_2; [done|]. intros [=]. done.
Qed.


Lemma lookup_updated_record_same f v r : updated_record f v r !! f = Some v.
Proof.
  unfold updated_record. destruct (String.eqb f "Active__c") eqn:Hf.
  - apply String.eqb_eq in Hf as ->. by rewrite lookup_insert_ne, lookup_insert_eq.
  - by rewrite lookup_insert_eq.
Qed.


Lemma lookup_updated_record_other f v r g :
  g <> f -> (f = "Active__c" -> g <> "rowClass") -> updated_record f v r !! g = r !! g.
Proof.
  intros Hf Hr. unfold updated_record. destruct (String.eqb f "Active__c") eqn:Ha.
  - apply String.eqb_eq in Ha. specialize (Hr Ha). by rewrite !lookup_insert_ne.
  - by rewrite lookup_insert_ne.
Qed.
(** ** Staging and saving *)

(** Unfolds the callbacks chained on the promise of a save, down to
    the recompute. *)
Ltac unfold_callbacks :=
  cbn [dispatch];
  cbv [finally catch save_then_regroup save_catch save_finally mbind M_bind lift assign
       showToast emit];
  cbn [result final emitted].






(** C6. When the persist call of a save fails with a message, the error
    toast carries that message and the fields are as before the save
    was attempted: the staging map with every staged edit, the working
    set, the view; the loading flag is down again. Whatever state the
    failure finds, it changes nothing but the loading flag. *)
Theorem failed_save_keeps_staging (s : state) (message : string) :
  changedRecords s <> [] -> isLoading s = false ->
  let failure := UpdateRejected (ApexError (Some (VStr message))) in
  let toast := ShowToast "Error" ("Error updating records: " +:+ message) "error" in
  run [SaveChanges; failure] s
  = (s, [UpdateProcessSettings (JSMap.values (changedRecords s)); toast])
  /\ forall s', final (dispatch failure s') = set_isLoading false s'
                /\ emitted (dispatch failure s') = [toast]
                /\ changedRecords (final (dispatch failure s')) = changedRecords s'
                /\ processData (final (dispatch failure s')) = processData s'.
Proof.
  intros Hne Hl. cbv zeta. split.
  - cbn [run dispatch]. rewrite handleSaveChanges_unfold.
    destruct (changedRecords s) as [|entry m] eqn:Hcr; [done|].
    cbn [JSMap.size length Nat.eqb final emitted].
    cbv [finally save_finally assign]. rewrite save_catch_message.
    cbn [result final emitted app]. f_equal.
    destruct s. simpl in *. by subst.
  - intros s'. cbn [dispatch]. cbv [finally save_finally assign].
    rewrite save_catch_message. by cbn [result final emitted app].
Qed.

(** C8 (amended). The save handler does not consult the loading flag:
    with an empty staging map it makes no persist call and only tells
    so, with a non-empty one it raises the flag and makes one persist
    call, whether or not a save is already pending. The flag comes down
    when a pending call settles, by failure or after the refresh. *)
Theorem save_ignores_loading_flag (s : state) :
  (changedRecords s = [] ->
     handleSaveChanges s
     = Outcome (Normal tt) s [ShowToast "Info" "No changes to save" "info"])
  /\ (changedRecords s <> [] ->
        handleSaveChanges s
        = Outcome (Normal tt) (set_isLoading true s)
                  [UpdateProcessSettings (JSMap.values (changedRecords s))])
  /\ (forall e, isLoading (final (dispatch (UpdateRejected e) s)) = false)
  /\ isLoading (final (dispatch RefreshResolved s)) = false
  /\ (forall e, isLoading (final (dispatch (RefreshRejected e) s)) = false).
Proof.
  split_and!.
  - intros Hcr. rewrite handleSaveChanges_unfold. by rewrite Hcr.
  - intros Hcr. rewrite handleSaveChanges_unfold.
    by destruct (changedRecords s).
  - intros e. unfold_callbacks. by destruct (error_message _ e).
  - unfold_callbacks. by destruct (processGroupedData s) as [[] fin out].
  - intros e. unfold_callbacks. by destruct (error_message _ e).
Qed.



(** ** Integers typed as orders *)

Lemma digit_of_pretty_N_char (d : N) :
  (d < 10)%N -> digit_of (pretty_N_char d) = Some (Z.of_N d).
Proof.
  intros Hd.
  assert (d = 0 \/ d = 1 \/ d = 2 \/ d = 3 \/ d = 4 \/ d = 5 \/ d = 6 \/ d = 7
          \/ d = 8 \/ d = 9)%N as Hcases by lia.
  destruct Hcases as [->|[->|[->|[->|[->|[->|[->|[->|[->| ->]]]]]]]]]; reflexivity.
Qed.

Lemma digits_pretty_N_go (x : N) (s : string) :
  digits (pretty_N_go x s) None
  = digits s (if decide (x = 0)%N then None else Some (Z.of_N x)).
Proof.
  revert s. induction (N.lt_wf_0 x) as [x _ IH]; intros s.
  destruct (decide (x = 0)%N) as [->|Hx]; [by rewrite pretty_N_go_0|].
  rewrite pretty_N_go_step by lia.
  rewrite IH by (apply N.div_lt; lia). cbn [digits].
  rewrite digit_of_pretty_N_char by (apply N.mod_lt; lia).
  f_equal. f_equal. pose proof (N.div_mod x 10 ltac:(lia)).
  destruct (decide (x `div` 10 = 0)%N) as [Hd|Hd]; simpl; lia.
Qed.

Lemma pretty_N_go_head (x : N) (s : string) :
  (0 < x)%N -> exists c t, pretty_N_go x s = String c t /\ is_Some (digit_of c).
Proof.
  revert s. induction (N.lt_wf_0 x) as [x _ IH]; intros s Hx.
  rewrite pretty_N_go_step by done.
  destruct (decide (x `div` 10 = 0)%N) as [->|Hd].
  - rewrite pretty_N_go_0. eexists _, _. split; [done|].
    rewrite digit_of_pretty_N_char by (apply N.mod_lt; lia). by eexists.
  - apply IH; [apply N.div_lt; lia|]. by apply N.neq_0_lt_0.
Qed.

Lemma parseInt_digit_head (c : ascii) (t : string) :
  is_Some (digit_of c) ->
  parseInt (String c t)
  = match digits (String c t) None with Some z => round_double z | None => NaN end.
Proof.
  intros [d Hd]. unfold parseInt.
  destruct c as [[] [] [] [] [] [] [] []]; try discriminate Hd; reflexivity.
Qed.

Lemma parseInt_minus (t : string) :
  parseInt (String "-" t)
  = match digits t None with Some z => round_double (- z) | None => NaN end.
Proof. reflexivity. Qed.

(** The decimal writing of an integer is read back as the double
    nearest to it: as the integer itself up to [2^53] in magnitude. *)
Lemma parseInt_pretty (z : Z) : parseInt (pretty z) = round_double z.
Proof.
  destruct z as [|p|p].
  - reflexivity.
  - change (pretty (Z.pos p)) with (pretty_N_go (N.pos p) "").
    destruct (pretty_N_go_head (N.pos p) "") as (c & t & Hs & Hc); [lia|].
    pose proof (digits_pretty_N_go (N.pos p) "") as Hdigits.
    rewrite Hs in *. rewrite parseInt_digit_head, Hdigits by done. reflexivity.
  - change (pretty (Z.neg p)) with (String "-" (pretty_N_go (N.pos p) "")).
    rewrite parseInt_minus, digits_pretty_N_go. reflexivity.
Qed.

Lemma parseInt_pretty_safe (z : Z) :
  (- 9007199254740992 <= z <= 9007199254740992)%Z -> parseInt (pretty z) = Int z.
Proof. intros Hz. by rewrite parseInt_pretty, round_double_safe. Qed.

Lemma pretty_Z_nonempty (z : Z) : pretty z <> "".
Proof.
  destruct z as [|p|p]; [done| |done].
  change (pretty (Z.pos p)) with (pretty_N_go (N.pos p) "").
  destruct (pretty_N_go_head (N.pos p) "") as (c & t & -> & _); [lia|done].
Qed.


(** Beyond 2^53 a numeral is read as the nearest double, a tie going to
    the even one; a numeral of 1e400 is read as Infinity. *)
Lemma parseInt_rounds :
  parseInt "9007199254740993" = Int 9007199254740992
  /\ parseInt "-9007199254740995" = Int (-9007199254740996)
  /\ parseInt (pretty (10 ^ 400)%Z) = Inf false
  /\ parseInt (pretty (- 10 ^ 400)%Z) = Inf true.
Proof. split_and!; vm_compute; reflexivity. Qed.

(** Beyond 2^53 a number is written with the digits that tell it from
    its neighbours, and from 1e21 on with an exponent. *)
Lemma Number_toString_rounds :
  ToString (VNum (Int (2 ^ 60))) = "1152921504606847000"
  /\ ToString (VNum (Int (- 2 ^ 70))) = "-1.1805916207174113e+21"
  /\ ToString (VNum (Int (10 ^ 21))) = "1e+21"
  /\ ToString (VNum (Int 9007199254740992)) = "9007199254740992".
Proof. split_and!; vm_compute; reflexivity. Qed.
(** ** Order values typed in *)

Lemma effective_order_truthy_Int r z :
  field r "Order__c" = VNum (Int z) -> z <> 0%Z -> effective_order r = Int z.
Proof.
  intros Hr Hz. unfold effective_order, js_or. rewrite Hr. simpl.
  apply Z.eqb_neq in Hz. by rewrite Hz.
Qed.

(** C7 (amended). An edit of the order field with a non-empty text
    stages the record with the text put through [parseInt]: the number
    nearest to the integer the text starts with (that integer itself
    up to 2^53 in magnitude), or [NaN] when it starts with none.
    On records typed as the columns say, the recompute of the grouped
    view does not throw, whatever the order values. A malformed order
    ([NaN]) counts as the sentinel 999, like an absent one: with orders
    that are numbers or absent, every group is sorted by effective
    order, so the record comes after every member whose order is a
    non-zero integer below 999 (not after members with larger
    orders). *)
Theorem order_edit_parsed_and_malformed_tolerated :
  (forall target s r,
     dataset_field target = "Order__c" -> target_type target <> "checkbox" ->
     value target <> "" ->
     last_matching (dataset_id target) (processData s) = Some r ->
     exists snapshot,
       JSMap.get (dataset_id target) (changedRecords (final (handleTableEdit target s)))
       = Some snapshot
       /\ snapshot !! "Order__c" = Some (VNum (parseInt (value target)))
       /\ (forall z, (- 9007199254740992 <= z <= 9007199254740992)%Z ->
             value target = pretty z -> snapshot !! "Order__c" = Some (VNum (Int z))))
  /\ (forall s, forallb well_typed (processData s) = true ->
        result (processGroupedData s) = Normal tt)
  /\ (forall pd, forallb well_typed pd = true ->
        exists gs,
          groupedView pd = Normal gs
          /\ (forallb numeric_order pd = true ->
              forall g, g ∈ gs ->
                StronglySorted effective_le (processes g)
                /\ forall l1 a l2,
                     processes g = l1 ++ a :: l2 -> field a "Order__c" = VNum NaN ->
                     effective_order a = Int 999
                     /\ forall b z, b ∈ l2 -> field b "Order__c" = VNum (Int z) ->
                          z <> 0%Z -> (999 <= z)%Z)).
Proof.
  split_and!.
  - intros target s r Hf Ht Hv Hr.
    destruct (handleTableEdit_final target s) as (_ & -> & _).
    rewrite Hr, jsmap_get_set_eq. eexists. split; [done|].
    rewrite (edited_value_order target Hf Ht Hv), Hf.
    rewrite lookup_updated_record_same. split; [done|].
    intros z Hz ->. by rewrite parseInt_pretty_safe.
  - intros s Hwt. rewrite processGroupedData_unfold.
    by destruct (groupedView_returns _ Hwt) as [gs ->].
  - intros pd Hwt. destruct (groupedView_returns pd Hwt) as [gs Hv]. exists gs.
    split; [done|]. intros Hnum g Hg.
    pose proof (members_sorted_effective pd gs g Hnum Hv Hg) as Hsorted.
    split; [done|]. intros l1 a l2 Hsplit Ha.
    assert (Hea : effective_order a = Int 999).
    { unfold effective_order, js_or. by rewrite Ha. }
    split; [done|]. intros b z Hb Hbz Hz.
    rewrite Hsplit in Hsorted. apply StronglySorted_app_1_r in Hsorted.
    apply StronglySorted_inv in Hsorted as [_ Hall].
    rewrite Forall_forall in Hall. specialize (Hall b Hb).
    unfold effective_le in Hall.
    by rewrite Hea, (effective_order_truthy_Int b z Hbz Hz) in Hall.
Qed.

(** ** The handlers, when the recompute returns *)

Lemma processGroupedData_Normal s gs :
  groupedView (processData s) = Normal gs ->
  processGroupedData s = Outcome (Normal tt) (set_groupedProcessData gs s) [].
Proof. intros H. by rewrite processGroupedData_unfold, H. Qed.

Lemma wiredProcess_data_Normal records e s gs :
  groupedView (map working_copy records) = Normal gs ->
  wiredProcess (WireResult (Some records) e) s
  = Outcome (Normal tt)
      (State (map working_copy records) records gs [] (isLoading s)
             (Some (WireResult (Some records) e))) [].
Proof.
  intros H. cbv [wiredProcess mbind M_bind read assign data]. cbn [result final emitted].
  rewrite (processGroupedData_Normal _ gs) by done.
  cbn. by rewrite map_id.
Qed.

Lemma handleTableEdit_processData target s :
  processData (final (handleTableEdit target s)) = map (edit_one target) (processData s).
Proof. by destruct (handleTableEdit_final target s) as (-> & _). Qed.

Lemma handleTableEdit_Normal target s gs :
  groupedView (map (edit_one target) (processData s)) = Normal gs ->
  result (handleTableEdit target s) = Normal tt
  /\ groupedProcessData (final (handleTableEdit target s)) = gs.
Proof.
  intros H.
  cbv [handleTableEdit mbind M_bind read assign]. cbn [result final emitted].
  pose proof (edit_records_fst (dataset_id target) (dataset_field target)
                (edited_value target) (processData s) (changedRecords s)) as Hfst.
  destruct (edit_records _ _ _ (processData s) (changedRecords s)) as [pd' cr'].
  cbn [fst] in Hfst. change (pd' = map (edit_one target) (processData s)) in Hfst.
  subst pd'. cbn [result final emitted]. rewrite processGroupedData_unfold.
  cbn [processData set_processData set_changedRecords]. by rewrite H.
Qed.

Lemma handleCancelChanges_Normal s gs :
  groupedView (map working_copy (originalData s)) = Normal gs ->
  handleCancelChanges s
  = Outcome (Normal tt)
      (State (map working_copy (originalData s)) (originalData s) gs []
             (isLoading s) (wiredProcessResult s))
      [ShowToast "Info" "Changes cancelled" "info"].
Proof.
  intros H. cbv [handleCancelChanges mbind M_bind read assign showToast emit].
  cbn [result final emitted].
  rewrite (processGroupedData_Normal _ gs) by done. reflexivity.
Qed.

Lemma refresh_resolved_Normal s gs :
  groupedView (processData s) = Normal gs ->
  dispatch RefreshResolved s
  = Outcome (Normal tt)
      (State (processData s) (originalData s) gs (changedRecords s) false
             (wiredProcessResult s)) [].
Proof.
  intros H. unfold_callbacks. by rewrite (processGroupedData_Normal _ gs).
Qed.


(** The events that leave the working set, the baseline and the view
    alone. *)
Lemma dispatch_keeps_data ev s :
  match ev with
  | Wired w => data w = None
  | SaveChanges | UpdateResolved | UpdateRejected _ | RefreshRejected _ => True
  | _ => False
  end ->
  processData (final (dispatch ev s)) = processData s
  /\ originalData (final (dispatch ev s)) = originalData s
  /\ groupedProcessData (final (dispatch ev s)) = groupedProcessData s.
Proof.
  destruct ev as [[[records|] [e|]]|target| | | |e| |e]; try done; intros _.
  - cbn [dispatch].
    cbv [wiredProcess mbind M_bind read assign data error lift showToast emit].
    cbn [result final emitted]. by destruct (error_message _ e).
  - cbn [dispatch]. rewrite handleSaveChanges_unfold. by destruct (_ =? _)%nat.
  - unfold_callbacks. by destruct (error_message _ e).
  - unfold_callbacks. by destruct (error_message _ e).
Qed.

(** The events that leave the staging map alone. *)
Lemma dispatch_keeps_staging ev s :
  match ev with
  | Wired w => data w = None
  | SaveChanges | UpdateRejected _ | RefreshResolved | RefreshRejected _ => True
  | _ => False
  end ->
  changedRecords (final (dispatch ev s)) = changedRecords s.
Proof.
  destruct ev as [[[records|] [e|]]|target| | | |e| |e]; try done; intros _.
  - cbn [dispatch].
    cbv [wiredProcess mbind M_bind read assign data error lift showToast emit].
    cbn [result final emitted]. by destruct (error_message _ e).
  - cbn [dispatch]. rewrite handleSaveChanges_unfold. by destruct (_ =? _)%nat.
  - unfold_callbacks. by destruct (error_message _ e).
  - unfold_callbacks. destruct (processGroupedData_frame s) as (_ & _ & Hcr & _).
    by destruct (processGroupedData s) as [[] fin out].
  - unfold_callbacks. by destruct (error_message _ e).
Qed.

(** ** What an edit does to one record *)

Lemma field_updated_record_other f v r g :
  g <> f -> g <> "rowClass" -> field (updated_record f v r) g = field r g.
Proof.
  intros Hf Hr. unfold updated_record, field.
  destruct (String.eqb f "Active__c"); by rewrite !lookup_insert_ne.
Qed.

Lemma field_updated_record_same f v r :
  f <> "rowClass" -> field (updated_record f v r) f = v.
Proof.
  intros Hr. unfold updated_record, field.
  destruct (String.eqb f "Active__c").
  - by rewrite lookup_insert_ne, lookup_insert_eq.
  - by rewrite lookup_insert_eq.
Qed.

Lemma field_working_copy r f :
  f <> "Id" -> f <> "rowClass" -> field (working_copy r) f = field r f.
Proof. intros H1 H2. unfold field. by rewrite working_copy_lookup. Qed.

(** The columns an edit can be of, with the input it comes through. *)
Lemma conformant_cases target :
  conformant target = true ->
  (dataset_field target = "Active__c" /\ target_type target = "checkbox")
  \/ (target_type target <> "checkbox"
      /\ (dataset_field target = "Name" \/ dataset_field target = "Group__c"
          \/ dataset_field target = "Handler_Class__c"
          \/ dataset_field target = "Object__c" \/ dataset_field target = "Order__c")).
Proof.
  unfold conformant, columns. cbn [existsb fieldName editable type].
  rewrite !orb_true_iff, !andb_true_iff.
  intros [H|[H|[H|[H|[H|[H|H]]]]]]; [..|done];
    destruct H as [[Hf _] Ht]; apply String.eqb_eq in Hf; symmetry in Hf;
    cbn in Ht; destruct (String.eqb (target_type target) "checkbox") eqn:Hc;
    try done.
  all: match type of Hc with
       | _ = true => apply String.eqb_eq in Hc
       | _ = false => apply String.eqb_neq in Hc
       end.
  all: first [left; by split | right; split; [done|]; auto 6].
Qed.

Lemma conformant_field target :
  conformant target = true ->
  dataset_field target <> "Id" /\ dataset_field target <> "rowClass".
Proof.
  intros H. destruct (conformant_cases target H) as [[-> _]|[_ [->|[->|[->|[->| ->]]]]]];
    by split.
Qed.

(** An edit of the order field leaves a number or the empty text. *)
Lemma edited_value_order_numeric target :
  dataset_field target = "Order__c" ->
  (exists n, edited_value target = VNum n) \/ edited_value target = VStr "".
Proof.
  intros Hf. unfold edited_value. rewrite Hf. cbn [String.eqb Ascii.eqb Bool.eqb andb].
  destruct (String.eqb (target_type target) "checkbox"); [left; by eexists|].
  destruct (decide (value target = "")) as [->|Hne]; [by right|].
  left. unfold strict_eq. rewrite bool_decide_eq_false_2; [by eexists|].
  by intros [=].
Qed.

Lemma edit_one_well_typed target r :
  conformant target = true -> well_typed r = true -> well_typed (edit_one target r) = true.
Proof.
  intros Hc Hwt. unfold edit_one. destruct (matching _ r); [|done].
  unfold well_typed in *. apply andb_prop in Hwt as [Hn Hg].
  destruct (conformant_cases target Hc) as [[Hf _]|[Ht Hf]].
  - rewrite Hf, !field_updated_record_other by done. by rewrite Hn, Hg.
  - destruct Hf as [Hf|[Hf|[Hf|[Hf|Hf]]]]; rewrite Hf.
    + rewrite field_updated_record_same, field_updated_record_other by done.
      rewrite edited_value_text by (by rewrite ?Hf). by rewrite Hg.
    + rewrite field_updated_record_same, field_updated_record_other by done.
      rewrite edited_value_text by (by rewrite ?Hf). rewrite Hn. simpl.
      apply orb_true_r.
    + rewrite !field_updated_record_other by done. by rewrite Hn, Hg.
    + rewrite !field_updated_record_other by done. by rewrite Hn, Hg.
    + rewrite !field_updated_record_other by done. by rewrite Hn, Hg.
Qed.

Lemma working_copy_well_typed r :
  well_typed r = true -> well_typed (working_copy r) = true.
Proof. unfold well_typed. by rewrite !field_working_copy. Qed.

Lemma forallb_map_preserved {A} (P : A -> bool) (f : A -> A) (l : list A) :
  (forall x, P x = true -> P (f x) = true) ->
  forallb P l = true -> forallb P (map f l) = true.
Proof.
  intros Hf. rewrite !forallb_forall. intros H y Hy.
  apply in_map_iff in Hy as (x & <- & Hx). auto.
Qed.

(** ** What every run keeps *)

Lemma run_invariant (I : state -> Prop) (ok : event -> bool) :
  (forall s ev, I s -> ok ev = true -> I (final (dispatch ev s))) ->
  forall evs s, I s -> forallb ok evs = true -> I (fst (run evs s)).
Proof.
  intros Hstep evs. induction evs as [|ev evs IH]; intros s Hs Hok; [done|].
  cbn [forallb] in Hok. apply andb_prop in Hok as [Hev Hevs].
  rewrite run_cons. cbn [fst]. apply IH; auto.
Qed.

Lemma forallb_and {A} (p q : A -> bool) (l : list A) :
  forallb p l = true -> forallb q l = true -> forallb (fun x => p x && q x) l = true.
Proof.
  rewrite !forallb_forall. intros Hp Hq x Hx. by rewrite Hp, Hq.
Qed.

(** The working set and the baseline after an event, whether or not
    the handler threw. *)
Lemma dispatch_processData ev s :
  processData (final (dispatch ev s)) =
  match ev with
  | Wired w => match data w with Some d => map working_copy d | None => processData s end
  | TableEdit t => map (edit_one t) (processData s)
  | CancelChanges => map working_copy (originalData s)
  | _ => processData s
  end.
Proof.
  destruct ev as [[[records|] e]|target| | | |e| |e]; cbn [data].
  - cbn [dispatch]. by destruct (wiredProcess_data_final records e s) as (-> & _).
  - by destruct (dispatch_keeps_data (Wired (WireResult None e)) s eq_refl) as (-> & _).
  - cbn [dispatch]. apply handleTableEdit_processData.
  - by destruct (dispatch_keeps_data SaveChanges s I) as (-> & _).
  - cbn [dispatch]. by destruct (handleCancelChanges_final s) as (-> & _).
  - done.
  - by destruct (dispatch_keeps_data (UpdateRejected e) s I) as (-> & _).
  - unfold_callbacks. destruct (processGroupedData_frame s) as (Hpd & _).
    by destruct (processGroupedData s) as [[] fin out].
  - by destruct (dispatch_keeps_data (RefreshRejected e) s I) as (-> & _).
Qed.

Lemma dispatch_originalData ev s :
  originalData (final (dispatch ev s)) =
  match ev with
  | Wired w => match data w with Some d => d | None => originalData s end
  | _ => originalData s
  end.
Proof.
  destruct ev as [[[records|] e]|target| | | |e| |e]; cbn [data].
  - cbn [dispatch]. by destruct (wiredProcess_data_final records e s) as (_ & -> & _).
  - by destruct (dispatch_keeps_data (Wired (WireResult None e)) s eq_refl) as (_ & -> & _).
  - cbn [dispatch]. by destruct (handleTableEdit_final target s) as (_ & _ & -> & _).
  - by destruct (dispatch_keeps_data SaveChanges s I) as (_ & -> & _).
  - cbn [dispatch]. by destruct (handleCancelChanges_final s) as (_ & _ & -> & _).
  - done.
  - by destruct (dispatch_keeps_data (UpdateRejected e) s I) as (_ & -> & _).
  - unfold_callbacks. destruct (processGroupedData_frame s) as (_ & Hod & _).
    by destruct (processGroupedData s) as [[] fin out].
  - by destruct (dispatch_keeps_data (RefreshRejected e) s I) as (_ & -> & _).
Qed.

(** A property of records that loading and editing keep is kept by
    every event, on the working set and on the baseline. *)
Lemma dispatch_records (P : record -> bool) (ok : edit_target -> bool) ev s :
  (forall r, P r = true -> P (working_copy r) = true) ->
  (forall t r, ok t = true -> P r = true -> P (edit_one t r) = true) ->
  match ev with
  | Wired w => match data w with Some d => forallb P d = true | None => True end
  | TableEdit t => ok t = true
  | _ => True
  end ->
  forallb P (processData s) = true /\ forallb P (originalData s) = true ->
  forallb P (processData (final (dispatch ev s))) = true
  /\ forallb P (originalData (final (dispatch ev s))) = true.
Proof.
  intros Hcopy Hedit Hev [Hpd Hod].
  rewrite dispatch_processData, dispatch_originalData.
  destruct ev as [[[records|] e]|target| | | |e| |e]; cbn [data] in *;
    try (by split).
  - split; [|done]. by apply forallb_map_preserved.
  - split; [|done]. apply forallb_map_preserved; [|done]. intros r. by apply Hedit.
  - split; [|done]. by apply forallb_map_preserved.
Qed.

Lemma consistent_step s ev :
  consistent s -> admissible ev = true -> consistent (final (dispatch ev s)).
Proof.
  intros (Hpd & Hod & Hsync) Hev.
  assert (Hrec : forallb well_typed (processData (final (dispatch ev s))) = true
                 /\ forallb well_typed (originalData (final (dispatch ev s))) = true).
  { apply (dispatch_records well_typed conformant); [| | |done].
    - apply working_copy_well_typed.
    - intros t r. apply edit_one_well_typed.
    - destruct ev as [[[records|] e]|target| | | |e| |e]; done. }
  destruct Hrec as [Hpd' Hod']. split_and!; [done..|].
  unfold in_sync in *.
  destruct ev as [[[records|] e]|target| | | |e| |e].
  - cbn [admissible data] in Hev.
    destruct (groupedView_returns (map working_copy records)) as [gs Hgs].
    { apply forallb_map_preserved; [apply working_copy_well_typed|done]. }
    cbn [dispatch]. by rewrite (wiredProcess_data_Normal _ _ _ gs).
  - destruct (dispatch_keeps_data (Wired (WireResult None e)) s eq_refl)
      as (-> & _ & ->). done.
  - rewrite dispatch_processData in Hpd'.
    destruct (groupedView_returns _ Hpd') as [gs Hgs].
    destruct (handleTableEdit_Normal target s gs Hgs) as [_ Hg].
    cbn [dispatch]. by rewrite Hg, handleTableEdit_processData.
  - by destruct (dispatch_keeps_data SaveChanges s I) as (-> & _ & ->).
  - destruct (groupedView_returns (map working_copy (originalData s))) as [gs Hgs].
    { apply forallb_map_preserved; [apply working_copy_well_typed|done]. }
    cbn [dispatch]. by rewrite (handleCancelChanges_Normal _ gs).
  - done.
  - by destruct (dispatch_keeps_data (UpdateRejected e) s I) as (-> & _ & ->).
  - by rewrite (refresh_resolved_Normal s _ Hsync).
  - by destruct (dispatch_keeps_data (RefreshRejected e) s I) as (-> & _ & ->).
Qed.

Lemma consistent_initial : consistent initial.
Proof. by split_and!. Qed.

Lemma consistent_run evs :
  forallb admissible evs = true -> consistent (fst (run evs initial)).
Proof.
  intros Hok.
  apply (run_invariant consistent admissible consistent_step); [|done].
  apply consistent_initial.
Qed.

(** X1. On records fetched typed as the columns say and edited as the
    columns allow, after any sequence of events whatever the view shown
    is the grouped view of the working set as it is: no event leaves a
    stale view behind. *)
Theorem view_always_in_sync (evs : list event) :
  forallb admissible evs = true ->
  let s := fst (run evs initial) in
  groupedView (processData s) = Normal (groupedProcessData s)
  /\ forallb well_typed (processData s) = true.
Proof.
  intros Hok. destruct (consistent_run evs Hok) as (Hpd & _ & Hsync). by split.
Qed.

(** X2. In such a run no handler and no promise callback throws,
    provided the errors handed over come with a body. *)
Theorem handlers_do_not_throw (evs : list event) (ev : event) :
  forallb admissible evs = true -> admissible ev = true -> with_body ev = true ->
  result (dispatch ev (fst (run evs initial))) = Normal tt.
Proof.
  intros Hok Hev Hbody.
  destruct (consistent_run evs Hok) as (Hpd & Hod & Hsync).
  set (s := fst (run evs initial)) in *.
  destruct ev as [[[records|] e]|target| | | |e| |e].
  - cbn [admissible data] in Hev.
    destruct (groupedView_returns (map working_copy records)) as [gs Hgs].
    { apply forallb_map_preserved; [apply working_copy_well_typed|done]. }
    cbn [dispatch]. by rewrite (wiredProcess_data_Normal _ _ _ gs).
  - cbn [dispatch].
    cbv [wiredProcess mbind M_bind read assign data error lift showToast emit mret M_ret].
    cbn [result final emitted]. destruct e as [[[m|]]|]; done.
  - assert (Hpd' : forallb well_typed (map (edit_one target) (processData s)) = true).
    { apply forallb_map_preserved; [|done]. intros r. by apply edit_one_well_typed. }
    destruct (groupedView_returns _ Hpd') as [gs Hgs].
    cbn [dispatch]. by destruct (handleTableEdit_Normal target s gs Hgs) as [-> _].
  - cbn [dispatch]. rewrite handleSaveChanges_unfold. by destruct (_ =? _)%nat.
  - destruct (groupedView_returns (map working_copy (originalData s))) as [gs Hgs].
    { apply forallb_map_preserved; [apply working_copy_well_typed|done]. }
    cbn [dispatch]. by rewrite (handleCancelChanges_Normal _ gs).
  - done.
  - unfold_callbacks. by destruct e as [[m|]].
  - by rewrite (refresh_resolved_Normal s _ Hsync).
  - unfold_callbacks. by destruct e as [[m|]].
Qed.

(** ** Edits and identifiers *)

Lemma last_matching_None id records :
  last_matching id records = None <-> Forall (fun r => matching id r = false) records.
Proof.
  unfold last_matching. rewrite last_None. split.
  - intros Hnil. apply Forall_forall. intros r Hr.
    destruct (matching id r) eqn:Hm; [|done].
    assert (Hin : r ∈ filter (fun r => matching id r = true) records).
    { by apply list_elem_of_filter. }
    rewrite Hnil in Hin. by apply elem_of_nil in Hin.
  - intros Hall. induction Hall as [|r l Hr _ IH]; [done|].
    rewrite filter_cons, decide_False; [done|]. by rewrite Hr.
Qed.

Lemma last_matching_Some id records r :
  last_matching id records = Some r -> matching id r = true /\ r ∈ records.
Proof.
  unfold last_matching. intros H%last_Some_elem_of.
  by apply list_elem_of_filter in H.
Qed.

Lemma matching_Id id r : matching id r = true -> field r "Id" = VStr id.
Proof. apply strict_eq_true. Qed.

Lemma map_edit_one_unmatched target records :
  Forall (fun r => matching (dataset_id target) r = false) records ->
  map (edit_one target) records = records.
Proof.
  induction 1 as [|r l Hr _ IH]; [done|]. simpl. unfold edit_one at 1.
  by rewrite Hr, IH.
Qed.

(** X3. An edit whose identifier matches no working record changes no
    field of the component; and from a state without pending changes,
    an edit leaves changes pending exactly when its identifier matches
    a working record (whether or not it changes a value). *)
Theorem edit_of_unknown_id_is_ignored (target : edit_target) (s : state) :
  let s' := final (handleTableEdit target s) in
  (Forall (fun r => matching (dataset_id target) r = false) (processData s) ->
     in_sync s -> s' = s /\ emitted (handleTableEdit target s) = [])
  /\ (changedRecords s = [] ->
        (hasChanges s' = true
         <-> exists r, r ∈ processData s /\ matching (dataset_id target) r = true)).
Proof.
  cbv zeta. destruct (handleTableEdit_final target s) as (Hpd & Hcr & Hod & Hl & Hw & Hout).
  cbv zeta in *. split.
  - intros Hnone Hsync. split; [|done].
    pose proof (proj2 (last_matching_None _ _) Hnone) as Hlast.
    rewrite Hlast in Hcr.
    assert (Hpd' : processData (final (handleTableEdit target s)) = processData s).
    { rewrite handleTableEdit_processData. by apply map_edit_one_unmatched. }
    assert (Hg : groupedProcessData (final (handleTableEdit target s))
                 = groupedProcessData s).
    { apply (handleTableEdit_Normal target s).
      rewrite map_edit_one_unmatched by done. exact Hsync. }
    clear Hpd Hout Hnone Hsync Hlast.
    remember (final (handleTableEdit target s)) as s' eqn:Es'. clear Es'.
    destruct s, s'. simpl in *. by subst.
  - intros Hempty. unfold hasChanges. rewrite Hcr, Hempty.
    destruct (last_matching (dataset_id target) (processData s)) as [r|] eqn:Hlast.
    + split; [|done]. intros _. exists r.
      by destruct (last_matching_Some _ _ _ Hlast).
    + split; [done|]. intros (r & Hr & Hm).
      apply last_matching_None in Hlast. rewrite Forall_forall in Hlast.
      by rewrite (Hlast r Hr) in Hm.
Qed.

Lemma matching_edit_one target id r :
  dataset_field target <> "Id" -> matching id (edit_one target r) = matching id r.
Proof.
  intros Hf. unfold edit_one. destruct (matching (dataset_id target) r); [|done].
  unfold matching. by rewrite field_updated_record_other.
Qed.

Lemma field_Id_edit_one target r :
  dataset_field target <> "Id" -> field (edit_one target r) "Id" = field r "Id".
Proof.
  intros Hf. unfold edit_one. destruct (matching (dataset_id target) r); [|done].
  by rewrite field_updated_record_other.
Qed.

(** X4. Edits of any field but the identifier keep the working set in
    place: as many records, in the same order, each with the identifier
    it had. *)
Theorem edits_keep_identifiers (edits : list edit_target) (s : state) :
  Forall (fun target => dataset_field target <> "Id") edits ->
  map (fun r => field r "Id") (processData (fst (run (map TableEdit edits) s)))
  = map (fun r => field r "Id") (processData s).
Proof.
  intros Hall. revert s. induction Hall as [|target edits Hf _ IH]; intros s; [done|].
  cbn [map]. rewrite run_cons. cbn [fst dispatch]. rewrite IH.
  rewrite handleTableEdit_processData, map_map.
  apply map_ext. intros r. by apply field_Id_edit_one.
Qed.

Lemma filter_matching_edit_one target id records :
  dataset_field target <> "Id" ->
  filter (fun r => matching id r = true) (map (edit_one target) records)
  = map (edit_one target) (filter (fun r => matching id r = true) records).
Proof.
  intros Hf. induction records as [|r l IH]; [done|].
  cbn [map]. rewrite !filter_cons, matching_edit_one by done.
  destruct (decide (matching id r = true)); cbn [map]; by rewrite IH.
Qed.

Lemma last_map {A B} (f : A -> B) (l : list A) : last (map f l) = f <$> last l.
Proof.
  induction l as [|x [|y l] IH]; [done..|]. exact IH.
Qed.

Lemma last_matching_edit_one target id records :
  dataset_field target <> "Id" ->
  last_matching id (map (edit_one target) records)
  = edit_one target <$> last_matching id records.
Proof.
  intros Hf. unfold last_matching. by rewrite filter_matching_edit_one, last_map.
Qed.

Lemma staging_current_edit target s :
  dataset_field target <> "Id" -> staging_current s ->
  staging_current (final (handleTableEdit target s)).
Proof.
  intros Hf Hs id r. destruct (handleTableEdit_final target s) as (Hpd & Hcr & _).
  cbv zeta in *. rewrite handleTableEdit_processData, last_matching_edit_one by done.
  rewrite Hcr. clear Hpd Hcr.
  destruct (decide (dataset_id target = id)) as [<-|Hne].
  - destruct (last_matching (dataset_id target) (processData s)) as [r0|] eqn:Hlast.
    + rewrite jsmap_get_set_eq. intros [= <-]. simpl. unfold edit_one.
      by destruct (last_matching_Some _ _ _ Hlast) as [-> _].
    + intros Hget. apply Hs in Hget. by rewrite Hlast in Hget.
  - assert (Hget : JSMap.get id
               match last_matching (dataset_id target) (processData s) with
               | Some r0 => JSMap.set (dataset_id target)
                   (updated_record (dataset_field target) (edited_value target) r0)
                   (changedRecords s)
               | None => changedRecords s
               end = JSMap.get id (changedRecords s)).
    { destruct (last_matching _ _); [|done]. by apply jsmap_get_set_ne. }
    rewrite Hget. intros Hr. apply Hs in Hr. rewrite Hr. simpl. f_equal.
    destruct (last_matching_Some _ _ _ Hr) as [Hm _].
    unfold edit_one, matching. rewrite (matching_Id _ _ Hm).
    unfold strict_eq. rewrite bool_decide_eq_false_2; [done|]. by intros [= ->].
Qed.

Lemma staging_current_step s ev :
  staging_current s -> admissible ev = true ->
  staging_current (final (dispatch ev s)).
Proof.
  intros Hs Hev.
  destruct ev as [[[records|] e]|target| | | |e| |e].
  - cbn [admissible data] in Hev.
    destruct (groupedView_returns (map working_copy records)) as [gs Hgs].
    { apply forallb_map_preserved; [apply working_copy_well_typed|done]. }
    cbn [dispatch]. rewrite (wiredProcess_data_Normal _ _ _ gs) by done.
    intros id r. done.
  - intros id r. rewrite dispatch_processData, dispatch_keeps_staging by done.
    apply Hs.
  - cbn [dispatch]. apply staging_current_edit; [|done].
    by destruct (conformant_field target Hev).
  - intros id r. rewrite dispatch_processData, dispatch_keeps_staging by done.
    apply Hs.
  - intros id r. cbn [dispatch].
    by destruct (handleCancelChanges_final s) as (_ & -> & _).
  - intros id r. done.
  - intros id r. rewrite dispatch_processData, dispatch_keeps_staging by done.
    apply Hs.
  - intros id r. rewrite dispatch_processData, dispatch_keeps_staging by done.
    apply Hs.
  - intros id r. rewrite dispatch_processData, dispatch_keeps_staging by done.
    apply Hs.
Qed.

(** X5. In a run on records typed as the columns say, edited as the
    columns allow, every staged snapshot is a working record as it is
    now: the last one carrying the key as its identifier. So what a
    save sends is what the table shows. *)
Theorem staged_snapshots_are_working_records (evs : list event) :
  forallb admissible evs = true ->
  let s := fst (run evs initial) in
  forall id r, JSMap.get id (changedRecords s) = Some r ->
    last_matching id (processData s) = Some r
    /\ r ∈ processData s
    /\ field r "Id" = VStr id.
Proof.
  intros Hok s id r Hget.
  assert (Hs : staging_current s).
  { apply (run_invariant staging_current admissible staging_current_step); [|done].
    intros id' r'. done. }
  pose proof (Hs id r Hget) as Hlast. split; [done|].
  destruct (last_matching_Some _ _ _ Hlast) as [Hm Hin]. split; [done|].
  by apply matching_Id.
Qed.

(** ** Row classes and orders along a run *)




Lemma numeric_order_working_copy r :
  numeric_order r = true -> numeric_order (working_copy r) = true.
Proof. unfold numeric_order. by rewrite field_working_copy. Qed.

Lemma numeric_order_edit_one target r :
  numeric_order r = true -> numeric_order (edit_one target r) = true.
Proof.
  intros Hr. unfold edit_one. destruct (matching _ r); [|done].
  unfold numeric_order in *.
  destruct (decide (dataset_field target = "Order__c")) as [Hf|Hf].
  - rewrite Hf, field_updated_record_same by done.
    by destruct (edited_value_order_numeric target Hf) as [[n ->]| ->].
  - by rewrite field_updated_record_other.
Qed.

(** X7. When the records fetched are typed as the columns say, with
    orders that are numbers or absent, and the edits are made as the
    columns allow, then after any sequence of events every group shown
    lists its members by ascending effective order (the order, or 999
    for one that is absent, zero, emptied or malformed). *)
Theorem shown_groups_sorted_by_effective_order (evs : list event) :
  forallb admissible evs = true -> forallb numeric_fetch evs = true ->
  forall g, g ∈ groupedProcessData (fst (run evs initial)) ->
    StronglySorted effective_le (processes g).
Proof.
  intros Hok Hnum g Hg.
  set (Inv := fun s => consistent s
                       /\ forallb numeric_order (processData s) = true
                       /\ forallb numeric_order (originalData s) = true).
  assert (HI : Inv (fst (run evs initial))).
  { apply (run_invariant Inv (fun ev => admissible ev && numeric_fetch ev)).
    - intros s ev (Hc & Hn) [Ha Hf]%andb_prop. split; [by apply consistent_step|].
      apply (dispatch_records numeric_order (fun _ => true)); [| | |done].
      + apply numeric_order_working_copy.
      + intros t r _. apply numeric_order_edit_one.
      + destruct ev as [[[records|] e]|target| | | |e| |e]; done.
    - split; [apply consistent_initial|done].
    - by apply forallb_and. }
  destruct HI as ((_ & _ & Hsync) & Hn & _).
  by apply (members_sorted_effective _ _ g Hn Hsync).
Qed.

(** ** Saving and fetching *)


(** X9. A wire result without data leaves every field of the
    component as it was, but for the result remembered: the working
    set, the baseline, the view, the staged edits and the loading flag
    stay. No persist call is made, and an error that carries a message
    is shown with it. *)
Theorem failed_fetch_keeps_state (w : wire_result) (s : state) :
  data w = None ->
  final (wiredProcess w s) = set_wiredProcessResult (Some w) s
  /\ persist_calls (emitted (wiredProcess w s)) = []
  /\ (forall m, error w = Some (ApexError (Some m)) ->
        emitted (wiredProcess w s)
        = [ShowToast "Error" ("Error loading process settings: " +:+ ToString m)
                     "error"]).
Proof.
  destruct w as [d [[[m|]]|]]; cbn [data]; intros ->;
    (split_and!; [done..|]); intros m' [=]; by subst.
Qed.

(** ** More on the grouped view *)

(** X10. The view has no group exactly when the working set has no
    record. *)
Theorem view_empty_iff_no_record (pd : list record) (gs : list group) :
  groupedView pd = Normal gs -> (gs = [] <-> pd = []).
Proof.
  intros Hv. destruct (groupedView_Normal _ _ Hv) as (Hperm & _ & Hall). split.
  - intros ->. simpl in Hperm. apply Permutation_nil in Hperm.
    by destruct pd.
  - intros ->. simpl in Hperm. destruct gs as [|g gs]; [done|].
    apply Forall_cons in Hall as [(Hne & _) _].
    symmetry in Hperm. apply Permutation_nil in Hperm. simpl in Hperm.
    apply app_eq_nil in Hperm as [Hp _]. done.
Qed.

(** Every member of a group is a working record with one field
    added: its status class, "process-box active-process" when its
    active flag is truthy and "process-box inactive-process" otherwise;
    every other field is the record's. *)
Theorem members_are_tagged_records (pd : list record) (gs : list group)
    (g : group) (m : record) :
  groupedView pd = Normal gs -> g ∈ gs -> m ∈ processes g ->
  exists r, r ∈ pd
    /\ (forall f, f <> "statusClass" -> m !! f = r !! f)
    /\ field m "statusClass"
       = VStr (if truthy (field m "Active__c") then "process-box active-process"
               else "process-box inactive-process").
Proof.
  intros Hv Hg Hm.
  destruct (groupedView_members pd gs g m Hv Hg Hm) as (r & Hr & -> & _).
  exists r. split_and!; [done| |].
  - intros f Hf. unfold with_statusClass. by rewrite lookup_insert_ne.
  - rewrite (field_with_statusClass r "Active__c") by done.
    unfold with_statusClass, field. by rewrite lookup_insert_eq.
Qed.

(** X11. The all-active flag of a group says that every member is
    active, and it is set exactly when the header has the active
    style. *)
Theorem allActive_flag_matches_header (pd : list record) (gs : list group) (g : group) :
  groupedView pd = Normal gs -> g ∈ gs ->
  (allActive g = true <-> Forall (fun m => truthy (field m "Active__c") = true) (processes g))
  /\ (allActive g = true <-> headerClass g = "group-header active-group-header").
Proof.
  intros Hv Hg. destruct (groupedView_Normal _ _ Hv) as (_ & _ & Hall).
  rewrite Forall_forall in Hall. destruct (Hall g Hg) as (_ & _ & members & Hmk).
  destruct (make_group_Normal _ _ _ Hmk) as (_ & _ & -> & -> & _). split.
  - rewrite forallb_forall, Forall_forall. unfold is_active.
    split; intros H m Hm; apply H; by apply list_elem_of_In.
  - destruct (forallb is_active (processes g)); [done|].
    by destruct (forallb _ (processes g)).
Qed.

(** ** How edits compose *)

Lemma edit_one_other target r id :
  dataset_id target <> id -> matching id r = true -> edit_one target r = r.
Proof.
  intros Hne Hm. unfold edit_one, matching. rewrite (matching_Id _ _ Hm).
  unfold strict_eq. rewrite bool_decide_eq_false_2; [done|]. by intros [= ->].
Qed.

Lemma edit_one_commute t1 t2 r :
  dataset_id t1 <> dataset_id t2 ->
  dataset_field t1 <> "Id" -> dataset_field t2 <> "Id" ->
  edit_one t2 (edit_one t1 r) = edit_one t1 (edit_one t2 r).
Proof.
  intros Hne H1 H2.
  destruct (matching (dataset_id t1) r) eqn:Hm1, (matching (dataset_id t2) r) eqn:Hm2.
  - apply matching_Id in Hm1, Hm2. rewrite Hm1 in Hm2. by injection Hm2.
  - assert (H : edit_one t2 (edit_one t1 r) = edit_one t1 r).
    { apply (edit_one_other t2 _ (dataset_id t1)); [done|].
      by rewrite matching_edit_one. }
    rewrite H. f_equal. unfold edit_one at 1. by rewrite Hm2.
  - assert (H : edit_one t1 (edit_one t2 r) = edit_one t2 r).
    { apply (edit_one_other t1 _ (dataset_id t2)); [done|].
      by rewrite matching_edit_one. }
    rewrite H. f_equal. unfold edit_one at 1. by rewrite Hm1.
  - unfold edit_one. by rewrite Hm1, Hm2, Hm1.
Qed.

Lemma last_matching_edit_other target id records :
  dataset_field target <> "Id" -> dataset_id target <> id ->
  last_matching id (map (edit_one target) records) = last_matching id records.
Proof.
  intros Hf Hne. rewrite last_matching_edit_one by done.
  destruct (last_matching id records) as [r|] eqn:Hlast; [|done]. simpl. f_equal.
  destruct (last_matching_Some _ _ _ Hlast) as [Hm _].
  by apply (edit_one_other target r id).
Qed.

(** X12. Edits of two different records, neither of the identifier
    field, can be made in either order: the working set is the same,
    and so is the snapshot staged under every key (only the order of
    the entries in the batch follows the order of the edits). *)
Theorem edits_of_different_records_commute (t1 t2 : edit_target) (s : state) :
  dataset_id t1 <> dataset_id t2 ->
  dataset_field t1 <> "Id" -> dataset_field t2 <> "Id" ->
  let s12 := fst (run [TableEdit t1; TableEdit t2] s) in
  let s21 := fst (run [TableEdit t2; TableEdit t1] s) in
  processData s12 = processData s21
  /\ forall id, JSMap.get id (changedRecords s12) = JSMap.get id (changedRecords s21).
Proof.
  intros Hne H1 H2. cbv zeta. rewrite !run_cons. cbn [run fst dispatch].
  split.
  - rewrite !handleTableEdit_processData, !map_map. apply map_ext.
    intros r. by apply edit_one_commute.
  - intros id.
    destruct (handleTableEdit_final t2 (final (handleTableEdit t1 s))) as (_ & -> & _).
    destruct (handleTableEdit_final t1 (final (handleTableEdit t2 s))) as (_ & -> & _).
    rewrite !handleTableEdit_processData.
    rewrite (last_matching_edit_other t1) by done.
    rewrite (last_matching_edit_other t2) by done.
    destruct (handleTableEdit_final t1 s) as (_ & -> & _).
    destruct (handleTableEdit_final t2 s) as (_ & -> & _).
    destruct (last_matching (dataset_id t1) (processData s)) as [r1|],
             (last_matching (dataset_id t2) (processData s)) as [r2|]; try done.
    destruct (decide (id = dataset_id t1)) as [->|Hid1].
    + rewrite jsmap_get_set_ne, !jsmap_get_set_eq by done. done.
    + destruct (decide (id = dataset_id t2)) as [->|Hid2].
      * rewrite jsmap_get_set_eq, jsmap_get_set_ne, jsmap_get_set_eq by done. done.
      * by rewrite !jsmap_get_set_ne.
Qed.

Lemma updated_record_twice f v1 v2 r :
  updated_record f v2 (updated_record f v1 r) = updated_record f v2 r.
Proof.
  unfold updated_record. destruct (String.eqb f "Active__c") eqn:Hf.
  - apply map_eq. intros k. rewrite !lookup_insert. by repeat case_decide.
  - by rewrite insert_insert_eq.
Qed.

(** X13. Of two edits in a row of the same field of the same record,
    the later one wins: the working set and the staging map are what
    the later edit alone would have left. *)
Theorem later_edit_of_a_field_wins (t1 t2 : edit_target) (s : state) :
  dataset_id t1 = dataset_id t2 -> dataset_field t1 = dataset_field t2 ->
  dataset_field t1 <> "Id" ->
  let s12 := fst (run [TableEdit t1; TableEdit t2] s) in
  let s2 := fst (run [TableEdit t2] s) in
  processData s12 = processData s2 /\ changedRecords s12 = changedRecords s2.
Proof.
  intros Hid Hfield Hf. cbv zeta. rewrite !run_cons. cbn [run fst dispatch].
  assert (Hf2 : dataset_field t2 <> "Id") by (by rewrite <- Hfield).
  assert (Hone : forall r, edit_one t2 (edit_one t1 r) = edit_one t2 r).
  { intros r. unfold edit_one at 1. rewrite matching_edit_one by done.
    unfold edit_one. rewrite Hid.
    destruct (matching (dataset_id t2) r); [|done].
    rewrite Hfield. apply updated_record_twice. }
  split.
  - rewrite !handleTableEdit_processData, map_map. by apply map_ext.
  - destruct (handleTableEdit_final t2 (final (handleTableEdit t1 s))) as (_ & -> & _).
    rewrite handleTableEdit_processData, last_matching_edit_one by done.
    destruct (handleTableEdit_final t1 s) as (_ & -> & _).
    destruct (handleTableEdit_final t2 s) as (_ & -> & _).
    rewrite Hid.
    destruct (last_matching (dataset_id t2) (processData s)) as [r|] eqn:Hlast; [|done].
    simpl. destruct (last_matching_Some _ _ _ Hlast) as [Hm _].
    unfold edit_one. rewrite Hid, Hm, Hfield.
    by rewrite updated_record_twice, jsmap_set_set.
Qed.

(** X14. Typing the decimal writing of an integer of magnitude up to
    2^53 into the order field of a record stages the record with
    exactly that integer as its order, and with every other field as
    the working record had it. *)
Theorem typed_integer_is_staged (recordId : string) (z : Z) (s : state) (r : record) :
  (- 9007199254740992 <= z <= 9007199254740992)%Z ->
  last_matching recordId (processData s) = Some r ->
  let target := EditTarget recordId "Order__c" "number" false (pretty z) in
  exists snapshot,
    JSMap.get recordId (changedRecords (final (handleTableEdit target s))) = Some snapshot
    /\ snapshot !! "Order__c" = Some (VNum (Int z))
    /\ forall f, f <> "Order__c" -> snapshot !! f = r !! f.
Proof.
  intros Hz Hr. cbv zeta.
  destruct (handleTableEdit_final (EditTarget recordId "Order__c" "number" false (pretty z)) s)
    as (_ & -> & _).
  cbn [dataset_id dataset_field]. rewrite Hr, jsmap_get_set_eq.
  eexists. split; [done|].
  rewrite edited_value_order by (try done; apply pretty_Z_nonempty).
  cbn [value]. rewrite parseInt_pretty_safe by done. split.
  - apply lookup_updated_record_same.
  - intros f Hf. by apply lookup_updated_record_other.
Qed.

End SerialProcessSetup.

(** ** The code-unit collation is a total preorder *)

Lemma ascii_compare_trans (x y z : ascii) :
  Ascii.compare x y <> Gt -> Ascii.compare y z <> Gt -> Ascii.compare x z <> Gt.
Proof.
  unfold Ascii.compare. intros Hxy Hyz Hxz.
  apply N.compare_gt_iff in Hxz.
  destruct (N.compare_spec (N_of_ascii x) (N_of_ascii y)) as [E|L|G]; [| |done];
    destruct (N.compare_spec (N_of_ascii y) (N_of_ascii z)) as [E'|L'|G']; try done; lia.
Qed.

Lemma string_compare_trans (a b c : string) :
  String.compare a b <> Gt -> String.compare b c <> Gt -> String.compare a c <> Gt.
Proof.
  revert b c. induction a as [|x a IH]; intros [|y b] [|z c]; simpl; try done.
  destruct (Ascii.compare x y) eqn:Hxy; [| |done];
    destruct (Ascii.compare y z) eqn:Hyz; try done.
  - apply Ascii.compare_eq_iff in Hxy as ->, Hyz as ->.
    assert (Ascii.compare z z = Eq) as ->.
    { unfold Ascii.compare. apply N.compare_refl. }
    apply IH.
  - apply Ascii.compare_eq_iff in Hxy as ->. by rewrite Hyz.
  - apply Ascii.compare_eq_iff in Hyz as <-. by rewrite Hxy.
  - intros _ _.
    pose proof (ascii_compare_trans x y z) as Ht. rewrite Hxy, Hyz in Ht.
    destruct (Ascii.compare x z) eqn:Hxz; [|done|by apply Ht].
    apply Ascii.compare_eq_iff in Hxz as ->.
    rewrite Ascii.compare_antisym, Hxy in Hyz. done.
Qed.

Lemma codeunit_compare_trans (a b c : string) :
  (codeunit_compare a b <= 0 -> codeunit_compare b c <= 0 -> codeunit_compare a c <= 0)%Z.
Proof.
  unfold codeunit_compare. pose proof (string_compare_trans a b c) as Ht.
  destruct (String.compare a b), (String.compare b c), (String.compare a c);
    try lia; intros _ _; exfalso; by apply Ht.
Qed.

Lemma codeunit_compare_total (a b : string) :
  (0 < codeunit_compare a b -> codeunit_compare b a <= 0)%Z.
Proof.
  unfold codeunit_compare. rewrite (String.compare_antisym b a).
  destruct (String.compare a b); simpl; lia.
Qed.

(** ** The save request of the process-variables form *)

Lemma has_shape_length shape s :
  ProcessVariables.has_shape shape s = true -> String.length s = length shape.
Proof.
  revert s. induction shape as [|[|l] shape IH]; intros [|c s]; simpl; try done.
  - intros [_ H]%andb_prop. by rewrite (IH s H).
  - intros [_ H]%andb_prop. by rewrite (IH s H).
Qed.

Lemma string_length_app (s t : string) :
  String.length (s +:+ t) = String.length s + String.length t.
Proof. induction s as [|c s IH]; simpl; [done|]. by rewrite IH. Qed.

(** A value of the shape without seconds gets them appended. *)
Lemma tsIso_minutes (s : ProcessVariables.state) :
  ProcessVariables.is_datetime_local_minutes (ProcessVariables.editSerialEngineTimestamp s)
  = true ->
  ProcessVariables.tsIso s = VStr (ProcessVariables.editSerialEngineTimestamp s +:+ ":00").
Proof.
  intros Hshape. apply has_shape_length in Hshape. simpl in Hshape.
  unfold ProcessVariables.tsIso. rewrite Hshape.
  by destruct (ProcessVariables.editSerialEngineTimestamp s).
Qed.

(** C9. A save sends an in-edit timestamp of the form yyyy-MM-ddTHH:mm
    with ":00" appended, so that the value carries seconds, and sends
    null for an empty in-edit timestamp. *)
Theorem save_appends_seconds (s : ProcessVariables.state) :
  let ts := ProcessVariables.editSerialEngineTimestamp s in
  let request := ProcessVariables.handleSave_request s in
  (ProcessVariables.is_datetime_local_minutes ts = true ->
     ProcessVariables.serialEngineTimestampIso request = VStr (ts +:+ ":00")
     /\ String.length (ts +:+ ":00") = 19)
  /\ (ts = "" -> ProcessVariables.serialEngineTimestampIso request = VNull)
  /\ ProcessVariables.request_serialEngineOn request
     = ProcessVariables.editSerialEngineOn s.
Proof.
  cbv zeta. split_and!.
  - intros Hshape. split; [by apply tsIso_minutes|].
    apply has_shape_length in Hshape. simpl in Hshape.
    by rewrite string_length_app, Hshape.
  - unfold ProcessVariables.handleSave_request, ProcessVariables.tsIso. simpl.
    by intros ->.
  - done.
Qed.

(** A value that already carries seconds is sent as typed. *)
Lemma save_keeps_seconds (s : ProcessVariables.state) :
  19 <= String.length (ProcessVariables.editSerialEngineTimestamp s) ->
  ProcessVariables.serialEngineTimestampIso (ProcessVariables.handleSave_request s)
  = VStr (ProcessVariables.editSerialEngineTimestamp s).
Proof.
  intros Hlen. unfold ProcessVariables.handleSave_request, ProcessVariables.tsIso. simpl.
  destruct (ProcessVariables.editSerialEngineTimestamp s) as [|c ts]; simpl in *; [lia|].
  replace (S (String.length ts) <? 19)%nat with false; [by rewrite andb_false_r|].
  symmetry. apply Nat.ltb_ge. lia.
Qed.

Lemma has_shape_app shape1 shape2 s1 s2 :
  ProcessVariables.has_shape shape1 s1 = true ->
  ProcessVariables.has_shape shape2 s2 = true ->
  ProcessVariables.has_shape (shape1 ++ shape2) (s1 +:+ s2) = true.
Proof.
  revert s1. induction shape1 as [|[|l] shape1 IH]; intros [|c s1]; simpl; try done.
  - intros [-> H]%andb_prop H2. simpl. by apply IH.
  - intros [-> H]%andb_prop H2. simpl. by apply IH.
Qed.

Lemma pad_two_digits (n : nat) :
  n < 100 ->
  ProcessVariables.has_shape [ProcessVariables.Digit; ProcessVariables.Digit]
    (ProcessVariables.pad n) = true.
Proof.
  intros Hn.
  assert (H : forallb (fun n => ProcessVariables.has_shape
                [ProcessVariables.Digit; ProcessVariables.Digit] (ProcessVariables.pad n))
              (seq 0 100) = true) by (vm_compute; reflexivity).
  rewrite forallb_forall in H. apply H, in_seq. lia.
Qed.

Lemma year_four_digits (y : Z) :
  (1000 <= y <= 9999)%Z ->
  ProcessVariables.has_shape
    [ProcessVariables.Digit; ProcessVariables.Digit; ProcessVariables.Digit;
     ProcessVariables.Digit] (pretty y) = true.
Proof.
  intros Hy.
  assert (H : forallb (fun n => ProcessVariables.has_shape
                [ProcessVariables.Digit; ProcessVariables.Digit; ProcessVariables.Digit;
                 ProcessVariables.Digit] (pretty (Z.of_nat n)))
              (seq 1000 (90 * 100)) = true) by (vm_compute; reflexivity).
  rewrite forallb_forall in H. rewrite <- (Z2Nat.id y) by lia.
  apply H, in_seq. lia.
Qed.

(** What the form shows for a date of a four-digit year has the shape
    yyyy-MM-ddTHH:mm, so a save right after sends it with seconds. *)
Lemma toInputDateTimeLocal_shape (d : ProcessVariables.local_date) :
  (1000 <= ProcessVariables.getFullYear d <= 9999)%Z ->
  ProcessVariables.getMonth d < 12 -> ProcessVariables.getDate d <= 31 ->
  ProcessVariables.getHours d < 24 -> ProcessVariables.getMinutes d < 60 ->
  ProcessVariables.is_datetime_local_minutes (ProcessVariables.toInputDateTimeLocal d)
  = true.
Proof.
  intros Hy Hm Hd Hh Hmi.
  unfold ProcessVariables.is_datetime_local_minutes, ProcessVariables.toInputDateTimeLocal.
  cbv zeta.
  change ProcessVariables.minutes_shape with
    ([ProcessVariables.Digit; ProcessVariables.Digit; ProcessVariables.Digit;
      ProcessVariables.Digit]
     ++ [ProcessVariables.Lit "-"] ++ [ProcessVariables.Digit; ProcessVariables.Digit]
     ++ [ProcessVariables.Lit "-"] ++ [ProcessVariables.Digit; ProcessVariables.Digit]
     ++ [ProcessVariables.Lit "T"] ++ [ProcessVariables.Digit; ProcessVariables.Digit]
     ++ [ProcessVariables.Lit ":"] ++ [ProcessVariables.Digit; ProcessVariables.Digit]).
  repeat (apply has_shape_app);
    first [by apply year_four_digits | apply pad_two_digits; lia | reflexivity].
Qed.

Lemma save_after_display_appends_seconds (d : ProcessVariables.local_date)
    (s : ProcessVariables.state) :
  (1000 <= ProcessVariables.getFullYear d <= 9999)%Z ->
  ProcessVariables.getMonth d < 12 -> ProcessVariables.getDate d <= 31 ->
  ProcessVariables.getHours d < 24 -> ProcessVariables.getMinutes d < 60 ->
  ProcessVariables.serialEngineTimestampIso
    (ProcessVariables.handleSave_request
       (ProcessVariables.handleTimestampChange (ProcessVariables.toInputDateTimeLocal d) s))
  = VStr (ProcessVariables.toInputDateTimeLocal d +:+ ":00").
Proof.
  intros Hy Hm Hd Hh Hmi.
  apply (tsIso_minutes
           (ProcessVariables.handleTimestampChange
              (ProcessVariables.toInputDateTimeLocal d) s)).
  simpl. by apply toInputDateTimeLocal_shape.
Qed.

Lemma save_sends_toggle (b : bool) (s : ProcessVariables.state) :
  ProcessVariables.request_serialEngineOn
    (ProcessVariables.handleSave_request (ProcessVariables.handleToggleChange b s)) = b.
Proof. reflexivity. Qed.

(** ** The process-variables form: loading, editing, cancelling *)

Lemma pill_shows_running (s : ProcessVariables.state) :
  (ProcessVariables.pillClassSerialEngineOn s = "pill green"
   <-> ProcessVariables.serialEngineOn s = true)
  /\ (ProcessVariables.serialEngineOnPillLabel s = "Running"
      <-> ProcessVariables.serialEngineOn s = true).
Proof.
  unfold ProcessVariables.pillClassSerialEngineOn, ProcessVariables.serialEngineOnPillLabel.
  by destruct (ProcessVariables.serialEngineOn s).
Qed.

Section pv_facts.
Variable local_time_of : jsval -> ProcessVariables.local_date.
Variable toLocaleString : jsval -> string.

(** The values a save returns are applied as loaded ones are. *)
Lemma handleSave_apply_as_loaded dto s :
  ProcessVariables.handleSave_apply local_time_of toLocaleString dto s
  = ProcessVariables.loadVars_apply local_time_of toLocaleString dto s.
Proof. reflexivity. Qed.

(** Edits of the form touch the two in-edit fields only. *)
Lemma form_edits_keep_committed edits s :
  let s' := fold_left ProcessVariables.form_edit_apply edits s in
  ProcessVariables.serialEngineOn s' = ProcessVariables.serialEngineOn s
  /\ ProcessVariables.serialEngineTimestampDisplay s'
     = ProcessVariables.serialEngineTimestampDisplay s
  /\ ProcessVariables.labelSerialEngineOn s' = ProcessVariables.labelSerialEngineOn s
  /\ ProcessVariables.labelSerialEngineTimestamp s'
     = ProcessVariables.labelSerialEngineTimestamp s
  /\ ProcessVariables.rawSerialEngineTimestamp s'
     = ProcessVariables.rawSerialEngineTimestamp s.
Proof.
  revert s. induction edits as [|e edits IH]; intros s; [done|].
  cbn [fold_left]. destruct (IH (ProcessVariables.form_edit_apply s e))
    as (-> & -> & -> & -> & ->). by destruct e.
Qed.

Lemma handleCancel_after_load vars s0 s :
  ProcessVariables.serialEngineOn s
  = ProcessVariables.serialEngineOn
      (ProcessVariables.loadVars_apply local_time_of toLocaleString vars s0) ->
  ProcessVariables.serialEngineTimestampDisplay s
  = ProcessVariables.serialEngineTimestampDisplay
      (ProcessVariables.loadVars_apply local_time_of toLocaleString vars s0) ->
  ProcessVariables.labelSerialEngineOn s = ProcessVariables.labelSerialEngineOn s0 ->
  ProcessVariables.labelSerialEngineTimestamp s
  = ProcessVariables.labelSerialEngineTimestamp s0 ->
  ProcessVariables.rawSerialEngineTimestamp s
  = js_or (ProcessVariables.dto_serialEngineTimestamp vars) VNull ->
  ProcessVariables.handleCancel local_time_of s
  = ProcessVariables.loadVars_apply local_time_of toLocaleString vars s0.
Proof.
  destruct s as [on disp l1 l2 eon ets raw]. cbn. intros -> -> -> -> ->.
  unfold ProcessVariables.handleCancel, ProcessVariables.loadVars_apply, js_or. cbn.
  by destruct (truthy (ProcessVariables.dto_serialEngineTimestamp vars)) eqn:Ht;
    [rewrite Ht|].
Qed.

(** X15. Cancelling brings the form back to the values last loaded or
    last returned by a save, whatever was toggled or typed since: the
    whole state is as it was right after that load or save. *)
Theorem cancel_restores_committed_values (vars : ProcessVariables.process_variables)
    (s : ProcessVariables.state) (edits : list ProcessVariables.form_edit) :
  let loaded := ProcessVariables.loadVars_apply local_time_of toLocaleString vars s in
  let saved := ProcessVariables.handleSave_apply local_time_of toLocaleString vars s in
  ProcessVariables.handleCancel local_time_of
    (fold_left ProcessVariables.form_edit_apply edits loaded) = loaded
  /\ ProcessVariables.handleCancel local_time_of
       (fold_left ProcessVariables.form_edit_apply edits saved) = saved.
Proof.
  cbv zeta.
  change (ProcessVariables.handleSave_apply local_time_of toLocaleString vars s)
    with (ProcessVariables.loadVars_apply local_time_of toLocaleString vars s).
  assert (H : ProcessVariables.handleCancel local_time_of
                (fold_left ProcessVariables.form_edit_apply edits
                   (ProcessVariables.loadVars_apply local_time_of toLocaleString vars s))
              = ProcessVariables.loadVars_apply local_time_of toLocaleString vars s).
  { destruct (form_edits_keep_committed edits
                (ProcessVariables.loadVars_apply local_time_of toLocaleString vars s))
      as (Hon & Hd & Hl1 & Hl2 & Hraw).
    cbv zeta in *. by apply handleCancel_after_load. }
  by split.
Qed.

(** X16. Saving right after a load sends the toggle as committed (on
    only when the service said exactly [true]) and, for a timestamp of
    a four-digit year, its local date and time to the minute with
    ":00" for the seconds, whatever seconds the loaded timestamp had;
    without a timestamp it sends null. *)
Theorem save_after_load (vars : ProcessVariables.process_variables)
    (s : ProcessVariables.state) :
  let ts := ProcessVariables.dto_serialEngineTimestamp vars in
  let d := local_time_of ts in
  let request :=
    ProcessVariables.handleSave_request
      (ProcessVariables.loadVars_apply local_time_of toLocaleString vars s) in
  ProcessVariables.request_serialEngineOn request
  = strict_eq (ProcessVariables.dto_serialEngineOn vars) (VBool true)
  /\ (truthy ts = false -> ProcessVariables.serialEngineTimestampIso request = VNull)
  /\ (truthy ts = true ->
      (1000 <= ProcessVariables.getFullYear d <= 9999)%Z ->
      ProcessVariables.getMonth d < 12 -> ProcessVariables.getDate d <= 31 ->
      ProcessVariables.getHours d < 24 -> ProcessVariables.getMinutes d < 60 ->
      ProcessVariables.serialEngineTimestampIso request
      = VStr (ProcessVariables.toInputDateTimeLocal d +:+ ":00")).
Proof.
  cbv zeta. split_and!.
  - done.
  - intros Ht. unfold ProcessVariables.handleSave_request, ProcessVariables.tsIso,
      ProcessVariables.loadVars_apply. cbn. by rewrite Ht.
  - intros Ht Hy Hm Hd Hh Hmi.
    unfold ProcessVariables.handleSave_request.
    cbn [ProcessVariables.serialEngineTimestampIso].
    rewrite tsIso_minutes.
    + unfold ProcessVariables.loadVars_apply. cbn. by rewrite Ht.
    + unfold ProcessVariables.loadVars_apply. cbn. rewrite Ht.
      by apply toInputDateTimeLocal_shape.
Qed.

End pv_facts.

(** X17. Seconds are appended at most once: a value of nineteen code
    units or more is sent as typed, so what a save made of a value
    without seconds is sent unchanged when it is the in-edit value. *)
Theorem seconds_appended_once (s : ProcessVariables.state) :
  (19 <= String.length (ProcessVariables.editSerialEngineTimestamp s) ->
   ProcessVariables.tsIso s = VStr (ProcessVariables.editSerialEngineTimestamp s))
  /\ (ProcessVariables.is_datetime_local_minutes
        (ProcessVariables.editSerialEngineTimestamp s) = true ->
      forall sent, ProcessVariables.tsIso s = VStr sent ->
        ProcessVariables.tsIso (ProcessVariables.handleTimestampChange sent s)
        = VStr sent).
Proof.
  split.
  - apply save_keeps_seconds.
  - intros Hshape sent Hsent. rewrite tsIso_minutes in Hsent by done.
    injection Hsent as <-.
    apply (save_keeps_seconds (ProcessVariables.handleTimestampChange _ s)).
    cbn. rewrite string_length_app. apply has_shape_length in Hshape.
    rewrite Hshape. cbn. lia.
Qed.

Lemma pad_length (n : nat) : n < 100 -> String.length (ProcessVariables.pad n) = 2.
Proof. intros Hn. by apply pad_two_digits, has_shape_length in Hn. Qed.

Lemma short_year_length (y : Z) : (0 <= y <= 999)%Z -> String.length (pretty y) <= 3.
Proof.
  intros Hy.
  assert (H : forallb (fun n => (String.length (pretty (Z.of_nat n)) <=? 3)%nat) (seq 0 1000)
              = true) by (vm_compute; reflexivity).
  rewrite forallb_forall in H. rewrite <- (Z2Nat.id y) by lia.
  apply Nat.leb_le, H, in_seq. lia.
Qed.

(** X18. For a date before the year 1000 the form shows the year
    without leading zeros, the value is shorter than sixteen code
    units, and a save sends it as it is, without seconds. *)
Theorem early_year_sent_without_seconds (d : ProcessVariables.local_date)
    (s : ProcessVariables.state) :
  (0 <= ProcessVariables.getFullYear d <= 999)%Z ->
  ProcessVariables.getMonth d < 12 -> ProcessVariables.getDate d <= 31 ->
  ProcessVariables.getHours d < 24 -> ProcessVariables.getMinutes d < 60 ->
  String.length (ProcessVariables.toInputDateTimeLocal d) < 16
  /\ ProcessVariables.tsIso
       (ProcessVariables.handleTimestampChange (ProcessVariables.toInputDateTimeLocal d) s)
     = VStr (ProcessVariables.toInputDateTimeLocal d).
Proof.
  intros Hy Hm Hd Hh Hmi.
  assert (Hlen : String.length (ProcessVariables.toInputDateTimeLocal d) < 16).
  { unfold ProcessVariables.toInputDateTimeLocal. cbv zeta.
    rewrite !string_length_app, !pad_length by lia.
    pose proof (short_year_length _ Hy). cbn. lia. }
  split; [done|].
  assert (Hne : truthy (VStr (ProcessVariables.toInputDateTimeLocal d)) = true).
  { destruct (ProcessVariables.toInputDateTimeLocal d) as [|c t] eqn:Hs; [|done].
    exfalso. unfold ProcessVariables.toInputDateTimeLocal in Hs.
    apply (f_equal String.length) in Hs. rewrite !string_length_app in Hs.
    cbn in Hs. lia. }
  unfold ProcessVariables.tsIso.
  cbn [ProcessVariables.editSerialEngineTimestamp ProcessVariables.handleTimestampChange].
  rewrite Hne.
  replace (16 <=? String.length (ProcessVariables.toInputDateTimeLocal d))%nat
    with false; [done|].
  symmetry. apply Nat.leb_gt. exact Hlen.
Qed.

(** X19. Labels and values load independently: the two answers can
    come in either order, a label answer changes no value and no
    in-edit field, and a label that is missing or empty leaves the
    label shown as it is. *)
Theorem labels_load_independently (local_time_of : jsval -> ProcessVariables.local_date)
    (toLocaleString : jsval -> string)
    (labels : option ProcessVariables.label_overrides) (f : ProcessVariables.fetched)
    (s : ProcessVariables.state) :
  ProcessVariables.loadLabels_resolved labels
    (ProcessVariables.loadVars_settled local_time_of toLocaleString f s)
  = ProcessVariables.loadVars_settled local_time_of toLocaleString f
      (ProcessVariables.loadLabels_resolved labels s)
  /\ ProcessVariables.handleSave_request (ProcessVariables.loadLabels_resolved labels s)
     = ProcessVariables.handleSave_request s
  /\ ProcessVariables.serialEngineOn (ProcessVariables.loadLabels_resolved labels s)
     = ProcessVariables.serialEngineOn s
  /\ (forall on, labels = Some (ProcessVariables.LabelOverrides on None) ->
        ProcessVariables.labelSerialEngineTimestamp
          (ProcessVariables.loadLabels_resolved labels s)
        = ProcessVariables.labelSerialEngineTimestamp s)
  /\ (forall on, labels = Some (ProcessVariables.LabelOverrides on (Some "")) ->
        ProcessVariables.labelSerialEngineTimestamp
          (ProcessVariables.loadLabels_resolved labels s)
        = ProcessVariables.labelSerialEngineTimestamp s).
Proof.
  split_and!.
  - destruct labels as [[on ts]|], f as [[vars|]|]; reflexivity.
  - by destruct labels as [[on ts]|].
  - by destruct labels as [[on ts]|].
  - by intros on ->.
  - by intros on ->.
Qed.

(** X20. A save that fails leaves the form as it is, edits included,
    and shows one error toast whose message is never blank: the
    message of the service when it gave a truthy one, and "Unable to
    save changes" otherwise (no error object, no body, no message). *)
Theorem failed_save_keeps_form (e : option ProcessVariables.save_error)
    (s : ProcessVariables.state) :
  exists message,
    ProcessVariables.handleSave_rejected e s
    = (s, [ProcessVariables.Toast "Error saving" message "error"])
    /\ truthy message = true
    /\ (forall m, e = Some (ProcessVariables.SaveError (Some m)) -> truthy m = true ->
          message = m)
    /\ (e = None \/ e = Some (ProcessVariables.SaveError None) ->
          message = VStr "Unable to save changes").
Proof.
  exists (ProcessVariables.save_error_message e). split_and!.
  - done.
  - destruct e as [[[m|]]|]; cbn; [|done..]. by destruct (truthy m) eqn:Hm.
  - intros m -> Hm. cbn. by rewrite Hm.
  - by intros [-> | ->].
Qed.

(** ** The properties at work on concrete inputs *)

(** The load scenario of the specification is partitioned. *)
Lemma groupedView_partitions_witness :
  forallb well_typed scenario = true
  /\ exists gs,
       groupedView codeunit_compare nan_of_string scenario = Normal gs
       /\ Permutation (concat (map processes gs)) (map with_statusClass scenario)
       /\ NoDup (map groupName gs)
       /\ StronglySorted (group_le codeunit_compare) gs.
Proof.
  split; [reflexivity|].
  destruct (groupedView_partitions codeunit_compare nan_of_string
              codeunit_compare_trans codeunit_compare_total scenario eq_refl)
    as (gs & Hv & Hperm & Hnd & _ & _ & Hsorted).
  exists gs. auto.
Defined.

(** The load scenario of the specification: groups G1 and G2 in this
    order, G1 mixed with "1/2 Active", G2 active with "1/1 Active". *)
Lemma scenario_view :
  exists g1 g2,
    groupedView codeunit_compare nan_of_string scenario = Normal [g1; g2]
    /\ (groupName g1, headerClass g1, statusText g1)
       = (VStr "G1", "group-header mixed-group-header", "1/2 Active")
    /\ (groupName g2, headerClass g2, statusText g2)
       = (VStr "G2", "group-header active-group-header", "1/1 Active").
Proof. do 2 eexists. split; [reflexivity|]. split; reflexivity. Qed.

(** The headers of the load scenario: of the two members of G1 one is
    active, so the header is mixed with "1/2 Active"; the one member of
    G2 is active, so the header is active with "1/1 Active". *)
Lemma header_classification_witness :
  forallb well_typed scenario = true
  /\ exists g1 g2,
       groupedView codeunit_compare nan_of_string scenario = Normal [g1; g2]
       /\ map (fun m => field m "Active__c") (processes g1) = [VBool true; VBool false]
       /\ headerClass g1 = "group-header mixed-group-header"
       /\ statusText g1 = "1/2 Active"
       /\ map (fun m => field m "Active__c") (processes g2) = [VBool true]
       /\ headerClass g2 = "group-header active-group-header"
       /\ statusText g2 = "1/1 Active".
Proof.
  split; [reflexivity|].
  destruct (header_classification codeunit_compare nan_of_string scenario eq_refl)
    as (gs & Hv & Hg).
  eassert (Hc : groupedView codeunit_compare nan_of_string scenario = Normal [_; _])
    by reflexivity.
  rewrite Hc in Hv. injection Hv as <-.
  match type of Hc with
  | _ = Normal [?a; ?b] =>
      set (g1 := a) in *; set (g2 := b) in *;
      destruct (Hg g1 ltac:(left)) as (_ & Htxt1 & _ & _ & Hmixed);
      destruct (Hg g2 ltac:(right; left)) as (_ & _ & Hactive & _);
      exists g1, g2
  end.
  split; [exact Hc|]. split; [reflexivity|].
  split; [apply Hmixed; [apply Exists_cons_hd|apply Exists_cons_tl, Exists_cons_hd];
          reflexivity|].
  split; [exact Htxt1|]. split; [reflexivity|].
  apply Hactive. repeat constructor.
Defined.

(** The sort example, under the code-unit collation. *)
Lemma members_sorted_by_order_then_name_witness :
  (forallb well_typed order_example = true
   /\ forallb plain_order order_example = true
   /\ same_order_same_value nan_of_string order_example = true
   /\ exists gs,
        groupedView codeunit_compare nan_of_string order_example = Normal gs
        /\ forall g, g ∈ gs ->
             StronglySorted (member_le codeunit_compare nan_of_string) (processes g))
  /\ ((codeunit_compare "A" "D" <= 0)%Z
      /\ exists g,
           groupedView codeunit_compare nan_of_string order_example = Normal [g]
           /\ names_of (processes g) = [VStr "C"; VStr "B"; VStr "A"; VStr "D"]).
Proof.
  pose proof (members_sorted_by_order_then_name codeunit_compare nan_of_string
                codeunit_compare_trans codeunit_compare_total) as [Hsorted Hexample].
  split.
  - split_and!; [reflexivity..|].
    exact (Hsorted order_example eq_refl eq_refl eq_refl).
  - assert (HAD : (codeunit_compare "A" "D" <= 0)%Z) by (vm_compute; discriminate).
    split; [exact HAD|exact (Hexample HAD)].
Defined.

(** C2, as stated, fails: an order beyond the sentinel comes after an
    absent one, so the unordered record is not last and the orders are
    not ascending with the absent ones last. *)
Lemma order_beyond_sentinel_after_absent :
  exists g,
    groupedView codeunit_compare nan_of_string absent_and_1000 = Normal [g]
    /\ names_of (processes g) = [VStr "A"; VStr "B"]
    /\ ~ StronglySorted order_le_absent_last (processes g).
Proof.
  eexists. split; [reflexivity|]. split; [reflexivity|].
  intros H. apply StronglySorted_inv in H as [_ H]. apply Forall_inv in H. exact H.
Qed.

(** The order zero is taken for an absent one, and sorts with the
    sentinel. *)
Lemma zero_order_sorts_with_sentinel :
  exists g,
    groupedView codeunit_compare nan_of_string zero_and_five = Normal [g]
    /\ names_of (processes g) = [VStr "B"; VStr "A"].
Proof. eexists. split; reflexivity. Qed.

(** An order typed over and cancelled: the fetched order is back. *)
Lemma discard_restores_baseline_witness :
  let trace :=
    run codeunit_compare nan_of_string
        ([Wired two_records] ++ map TableEdit [type_into "A" "Order__c" "7"]
         ++ [CancelChanges]) initial in
  hasChanges (fst trace) = false
  /\ (fun w => field w "Order__c") <$> (processData (fst trace) !! 0%nat)
     = Some (VNum (Int 5))
  /\ persist_calls (snd trace) = [].
Proof.
  pose proof (discard_restores_baseline codeunit_compare nan_of_string initial
                [sample "A" (VStr "G") (VNum (Int 5)) true;
                 sample "B" (VStr "G") (VNum (Int 1000)) false]
                None [type_into "A" "Order__c" "7"]) as (Hno & _ & _ & Hfields & Hcalls).
  cbv zeta in *. unfold two_records. split_and!; [exact Hno| |exact Hcalls].
  destruct (Hfields 0%nat _ eq_refl) as (w & -> & Hw).
  simpl. unfold field. rewrite Hw by done. reflexivity.
Defined.


(** A save of one staged edit that fails with "row locked". *)
Lemma failed_save_keeps_staging_witness :
  let s := fst (run codeunit_compare nan_of_string
                    [Wired two_records; TableEdit (type_into "A" "Order__c" "7")] initial) in
  changedRecords s <> [] /\ isLoading s = false
  /\ run codeunit_compare nan_of_string
         [SaveChanges; UpdateRejected (ApexError (Some (VStr "row locked")))] s
     = (s, [UpdateProcessSettings (JSMap.values (changedRecords s));
            ShowToast "Error" ("Error updating records: " +:+ "row locked") "error"]).
Proof.
  cbv zeta.
  set (s := fst (run codeunit_compare nan_of_string _ initial)).
  assert (Hne : changedRecords s <> []).
  { intros H. apply (f_equal length) in H. vm_compute in H. discriminate. }
  assert (Hl : isLoading s = false) by reflexivity.
  destruct (failed_save_keeps_staging codeunit_compare nan_of_string s "row locked" Hne Hl)
    as [Hrun _].
  split; [exact Hne|]. split; [exact Hl|]. exact Hrun.
Defined.

(** C7, as stated, fails: a record whose order was made malformed by an
    edit still comes before a record whose order is beyond the
    sentinel. *)
Lemma malformed_order_not_last :
  let s := fst (run codeunit_compare nan_of_string
                    [Wired two_records; TableEdit (type_into "A" "Order__c" "abc")] initial) in
  exists g,
    groupedProcessData s = [g]
    /\ names_of (processes g) = [VStr "A"; VStr "B"]
    /\ map (fun r => field r "Order__c") (processes g) = [VNum NaN; VNum (Int 1000)]
    /\ ~ malformed_last (processes g).
Proof.
  cbv zeta. eexists. split; [reflexivity|]. split_and!; [reflexivity..|].
  intros H. specialize (H [] _ _ eq_refl eq_refl). vm_compute in H. discriminate.
Qed.

(** "12abc" typed as an order is staged as 12; a malformed order next to
    the order 7 is sorted without a fault. *)
Lemma order_edit_parsed_and_malformed_tolerated_witness :
  let loaded := fst (run codeunit_compare nan_of_string [Wired two_records] initial) in
  let target := type_into "A" "Order__c" "12abc" in
  (exists snapshot,
     JSMap.get "A" (changedRecords (final (handleTableEdit codeunit_compare nan_of_string
                                                           target loaded)))
     = Some snapshot
     /\ snapshot !! "Order__c" = Some (VNum (Int 12)))
  /\ (forallb well_typed [sample "A" (VStr "G") (VNum NaN) true;
                          sample "B" (VStr "G") (VNum (Int 7)) true] = true
      /\ exists gs,
           groupedView codeunit_compare nan_of_string
             [sample "A" (VStr "G") (VNum NaN) true;
              sample "B" (VStr "G") (VNum (Int 7)) true] = Normal gs
           /\ forall g, g ∈ gs ->
                StronglySorted (effective_le nan_of_string) (processes g)).
Proof.
  cbv zeta.
  pose proof (order_edit_parsed_and_malformed_tolerated codeunit_compare nan_of_string)
    as (Hparse & _ & Hsorted).
  split.
  - destruct (Hparse (type_into "A" "Order__c" "12abc")
                     (fst (run codeunit_compare nan_of_string [Wired two_records] initial))
                     (working_copy (sample "A" (VStr "G") (VNum (Int 5)) true))
                     eq_refl ltac:(discriminate) ltac:(discriminate) eq_refl)
      as (snapshot & Hget & Hvalue & _).
    exists snapshot. split; [exact Hget|exact Hvalue].
  - split; [reflexivity|].
    destruct (Hsorted [sample "A" (VStr "G") (VNum NaN) true;
                       sample "B" (VStr "G") (VNum (Int 7)) true] eq_refl)
      as (gs & Hv & Hg).
    exists gs. split; [exact Hv|]. intros g Hin. exact (proj1 (Hg eq_refl g Hin)).
Defined.

(** C8, as stated, fails: with a save pending and the loading flag set,
    a second save calls the persist service again. *)
Lemma second_save_calls_persist_again :
  let pending := fst (run codeunit_compare nan_of_string
                          [Wired two_records; TableEdit (type_into "A" "Order__c" "7");
                           SaveChanges] initial) in
  isLoading pending = true
  /\ length (persist_calls (snd (run codeunit_compare nan_of_string
                                     [SaveChanges] pending))) = 1%nat
  /\ ~ save_gated pending.
Proof.
  cbv zeta. split_and!; [reflexivity|by vm_compute|].
  intros H. specialize (H eq_refl). apply (f_equal length) in H.
  vm_compute in H. discriminate.
Qed.

(** A save with nothing staged, and one with an edit staged. *)
Lemma save_ignores_loading_flag_witness :
  let staged := fst (run codeunit_compare nan_of_string
                         [Wired two_records; TableEdit (type_into "A" "Order__c" "7")]
                         initial) in
  (changedRecords initial = []
   /\ handleSaveChanges initial
      = Outcome (Normal tt) initial [ShowToast "Info" "No changes to save" "info"])
  /\ (changedRecords staged <> []
      /\ handleSaveChanges staged
         = Outcome (Normal tt) (set_isLoading true staged)
                   [UpdateProcessSettings (JSMap.values (changedRecords staged))]).
Proof.
  cbv zeta. split.
  - split; [reflexivity|].
    exact (proj1 (save_ignores_loading_flag codeunit_compare nan_of_string initial) eq_refl).
  - set (staged := fst (run codeunit_compare nan_of_string _ initial)).
    assert (Hne : changedRecords staged <> []).
    { intros H. apply (f_equal length) in H. vm_compute in H. discriminate. }
    split; [exact Hne|].
    exact (proj1 (proj2 (save_ignores_loading_flag codeunit_compare nan_of_string staged))
                 Hne).
Defined.

(** "2024-05-06T07:08" is sent as "2024-05-06T07:08:00". *)
Lemma save_appends_seconds_witness :
  ProcessVariables.is_datetime_local_minutes "2024-05-06T07:08" = true
  /\ ProcessVariables.serialEngineTimestampIso
       (ProcessVariables.handleSave_request ProcessVariables.typed_minutes)
     = VStr "2024-05-06T07:08:00".
Proof.
  split; [reflexivity|].
  exact (proj1 (proj1 (save_appends_seconds ProcessVariables.typed_minutes) eq_refl)).
Defined.

(** An edit of record A leaves record B where and as it was. *)
Lemma edit_frame_witness :
  let loaded := fst (run codeunit_compare nan_of_string [Wired two_records] initial) in
  let s' := final (handleTableEdit codeunit_compare nan_of_string
                                   (type_into "A" "Order__c" "7") loaded) in
  originalData s' = originalData loaded
  /\ processData s' !! 1%nat
     = Some (working_copy (sample "B" (VStr "G") (VNum (Int 1000)) false)).
Proof.
  cbv zeta.
  pose proof (edit_frame codeunit_compare nan_of_string (type_into "A" "Order__c" "7")
                (fst (run codeunit_compare nan_of_string [Wired two_records] initial)))
    as (Hod & _ & Hother & _).
  split; [exact Hod|].
  apply Hother; reflexivity.
Defined.

(** ** The further properties at work on concrete inputs *)

(** The sample session keeps the view in sync. *)
Lemma view_always_in_sync_witness :
  let s := fst (run codeunit_compare nan_of_string sample_run initial) in
  forallb admissible sample_run = true
  /\ groupedView codeunit_compare nan_of_string (processData s)
     = Normal (groupedProcessData s).
Proof.
  cbv zeta. split; [reflexivity|].
  exact (proj1 (view_always_in_sync codeunit_compare nan_of_string sample_run eq_refl)).
Defined.

(** After the sample session, a failing update does not throw. *)
Lemma handlers_do_not_throw_witness :
  let ev := UpdateRejected (ApexError (Some (VStr "row locked"))) in
  forallb admissible sample_run = true /\ admissible ev = true /\ with_body ev = true
  /\ result (dispatch codeunit_compare nan_of_string ev
               (fst (run codeunit_compare nan_of_string sample_run initial)))
     = Normal tt.
Proof.
  cbv zeta. split_and!; [reflexivity..|].
  exact (handlers_do_not_throw codeunit_compare nan_of_string sample_run
           (UpdateRejected (ApexError (Some (VStr "row locked")))) eq_refl eq_refl eq_refl).
Defined.

(** An edit of a record "Z" that is not in the table, and one of "A". *)
Lemma edit_of_unknown_id_is_ignored_witness :
  let loaded := fst (run codeunit_compare nan_of_string [Wired two_records] initial) in
  final (handleTableEdit codeunit_compare nan_of_string (type_into "Z" "Name" "z") loaded)
  = loaded
  /\ hasChanges (final (handleTableEdit codeunit_compare nan_of_string
                          (type_into "A" "Name" "A") loaded)) = true.
Proof.
  cbv zeta.
  set (loaded := fst (run codeunit_compare nan_of_string [Wired two_records] initial)).
  split.
  - apply (proj1 (edit_of_unknown_id_is_ignored codeunit_compare nan_of_string
                    (type_into "Z" "Name" "z") loaded)).
    + repeat constructor.
    + reflexivity.
  - apply (proj2 (edit_of_unknown_id_is_ignored codeunit_compare nan_of_string
                    (type_into "A" "Name" "A") loaded)); [reflexivity|].
    exists (working_copy (sample "A" (VStr "G") (VNum (Int 5)) true)).
    split; [left|reflexivity].
Defined.

(** Two edits of the fetched records keep the identifiers A and B. *)
Lemma edits_keep_identifiers_witness :
  let loaded := fst (run codeunit_compare nan_of_string [Wired two_records] initial) in
  map (fun r => field r "Id")
      (processData (fst (run codeunit_compare nan_of_string
                             (map TableEdit [type_into "A" "Name" "A1";
                                             type_into "B" "Order__c" "3"]) loaded)))
  = [VStr "A"; VStr "B"].
Proof.
  cbv zeta.
  rewrite (edits_keep_identifiers codeunit_compare nan_of_string
             [type_into "A" "Name" "A1"; type_into "B" "Order__c" "3"]).
  - reflexivity.
  - repeat constructor; discriminate.
Defined.

(** The entry staged for B after the staged session is the working
    record B. *)
Lemma staged_snapshots_are_working_records_witness :
  let s := fst (run codeunit_compare nan_of_string staged_run initial) in
  let b := updated_record "Order__c" (VNum (Int 3))
             (working_copy (sample "B" (VStr "G") (VNum (Int 1000)) false)) in
  forallb admissible staged_run = true
  /\ JSMap.get "B" (changedRecords s) = Some b
  /\ b ∈ processData s.
Proof.
  cbv zeta. split; [reflexivity|]. split; [reflexivity|].
  exact (proj1 (proj2 (staged_snapshots_are_working_records codeunit_compare
                         nan_of_string staged_run eq_refl "B" _ eq_refl))).
Defined.


(** After the staged session the groups shown are sorted. *)
Lemma shown_groups_sorted_by_effective_order_witness :
  forallb admissible staged_run = true /\ forallb numeric_fetch staged_run = true
  /\ forall g,
       g ∈ groupedProcessData (fst (run codeunit_compare nan_of_string staged_run initial)) ->
       StronglySorted (effective_le nan_of_string) (processes g).
Proof.
  split_and!; [reflexivity..|].
  exact (shown_groups_sorted_by_effective_order codeunit_compare nan_of_string staged_run
           eq_refl eq_refl).
Defined.


(** A fetch that fails with "timeout" after the staged session. *)
Lemma failed_fetch_keeps_state_witness :
  let s := fst (run codeunit_compare nan_of_string staged_run initial) in
  let w := WireResult None (Some (ApexError (Some (VStr "timeout")))) in
  final (wiredProcess codeunit_compare nan_of_string w s) = set_wiredProcessResult (Some w) s
  /\ emitted (wiredProcess codeunit_compare nan_of_string w s)
     = [ShowToast "Error" ("Error loading process settings: " +:+ "timeout") "error"].
Proof.
  cbv zeta.
  destruct (failed_fetch_keeps_state codeunit_compare nan_of_string
              (WireResult None (Some (ApexError (Some (VStr "timeout")))))
              (fst (run codeunit_compare nan_of_string staged_run initial)) eq_refl)
    as (Hfinal & _ & Htoast).
  split; [exact Hfinal|]. exact (Htoast (VStr "timeout") eq_refl).
Defined.

(** The view of the load scenario is not empty. *)
Lemma view_empty_iff_no_record_witness :
  exists gs,
    groupedView codeunit_compare nan_of_string scenario = Normal gs /\ gs <> [].
Proof.
  destruct (groupedView codeunit_compare nan_of_string scenario) as [gs|] eqn:Hv;
    [|discriminate Hv].
  exists gs. split; [reflexivity|]. intros Hgs.
  pose proof (proj1 (view_empty_iff_no_record codeunit_compare nan_of_string
                       scenario gs Hv) Hgs) as Hpd.
  discriminate Hpd.
Defined.

(** The members of the view of the load scenario. *)
Lemma members_are_tagged_records_witness :
  exists gs,
    groupedView codeunit_compare nan_of_string scenario = Normal gs
    /\ forall g m, g ∈ gs -> m ∈ processes g ->
         field m "statusClass"
         = VStr (if truthy (field m "Active__c") then "process-box active-process"
                 else "process-box inactive-process").
Proof.
  destruct (groupedView codeunit_compare nan_of_string scenario) as [gs|] eqn:Hv;
    [|discriminate Hv].
  exists gs. split; [reflexivity|]. intros g m Hg Hm.
  destruct (members_are_tagged_records codeunit_compare nan_of_string scenario gs g m
              Hv Hg Hm) as (r & _ & _ & Hclass).
  exact Hclass.
Defined.

(** The flags of the view of the load scenario. *)
Lemma allActive_flag_matches_header_witness :
  exists gs,
    groupedView codeunit_compare nan_of_string scenario = Normal gs
    /\ forall g, g ∈ gs ->
         (allActive g = true <-> headerClass g = "group-header active-group-header").
Proof.
  destruct (groupedView codeunit_compare nan_of_string scenario) as [gs|] eqn:Hv;
    [|discriminate Hv].
  exists gs. split; [reflexivity|]. intros g Hg.
  exact (proj2 (allActive_flag_matches_header codeunit_compare nan_of_string scenario gs g
                  Hv Hg)).
Defined.

(** Edits of A and of B, in both orders. *)
Lemma edits_of_different_records_commute_witness :
  let loaded := fst (run codeunit_compare nan_of_string [Wired two_records] initial) in
  let a := type_into "A" "Name" "A1" in
  let b := type_into "B" "Order__c" "3" in
  processData (fst (run codeunit_compare nan_of_string [TableEdit a; TableEdit b] loaded))
  = processData (fst (run codeunit_compare nan_of_string [TableEdit b; TableEdit a] loaded)).
Proof.
  cbv zeta.
  apply (edits_of_different_records_commute codeunit_compare nan_of_string
           (type_into "A" "Name" "A1") (type_into "B" "Order__c" "3"));
    discriminate.
Defined.

(** The order of A typed twice. *)
Lemma later_edit_of_a_field_wins_witness :
  let loaded := fst (run codeunit_compare nan_of_string [Wired two_records] initial) in
  let first := type_into "A" "Order__c" "7" in
  let second := type_into "A" "Order__c" "8" in
  changedRecords (fst (run codeunit_compare nan_of_string
                           [TableEdit first; TableEdit second] loaded))
  = changedRecords (fst (run codeunit_compare nan_of_string [TableEdit second] loaded)).
Proof.
  cbv zeta.
  apply (later_edit_of_a_field_wins codeunit_compare nan_of_string
           (type_into "A" "Order__c" "7") (type_into "A" "Order__c" "8"));
    [reflexivity|reflexivity|discriminate].
Defined.

(** The order -42 typed for A. *)
Lemma typed_integer_is_staged_witness :
  let loaded := fst (run codeunit_compare nan_of_string [Wired two_records] initial) in
  let target := EditTarget "A" "Order__c" "number" false "-42" in
  exists snapshot,
    JSMap.get "A" (changedRecords (final (handleTableEdit codeunit_compare nan_of_string
                                            target loaded))) = Some snapshot
    /\ snapshot !! "Order__c" = Some (VNum (Int (-42))).
Proof.
  cbv zeta.
  destruct (typed_integer_is_staged codeunit_compare nan_of_string "A" (-42)
              (fst (run codeunit_compare nan_of_string [Wired two_records] initial))
              (working_copy (sample "A" (VStr "G") (VNum (Int 5)) true))
              ltac:(lia) eq_refl)
    as (snapshot & Hget & Horder & _).
  exists snapshot. split; [exact Hget|exact Horder].
Defined.

(** A load, a toggle and a typed timestamp, then cancel. *)
Lemma cancel_restores_committed_values_witness :
  let loaded :=
    ProcessVariables.loadVars_apply ProcessVariables.fixed_local_time
      ProcessVariables.fixed_locale_string ProcessVariables.sample_vars
      ProcessVariables.initial in
  ProcessVariables.handleCancel ProcessVariables.fixed_local_time
    (fold_left ProcessVariables.form_edit_apply
       [ProcessVariables.ToggleChange false;
        ProcessVariables.TimestampChange "2030-01-01T00:00"] loaded)
  = loaded.
Proof.
  cbv zeta.
  exact (proj1 (cancel_restores_committed_values ProcessVariables.fixed_local_time
                  ProcessVariables.fixed_locale_string ProcessVariables.sample_vars
                  ProcessVariables.initial
                  [ProcessVariables.ToggleChange false;
                   ProcessVariables.TimestampChange "2030-01-01T00:00"])).
Defined.

(** A timestamp with 37 seconds is loaded and saved back with ":00". *)
Lemma save_after_load_witness :
  ProcessVariables.serialEngineTimestampIso
    (ProcessVariables.handleSave_request
       (ProcessVariables.loadVars_apply ProcessVariables.fixed_local_time
          ProcessVariables.fixed_locale_string ProcessVariables.sample_vars
          ProcessVariables.initial))
  = VStr "2024-05-06T07:08:00".
Proof.
  apply (proj2 (proj2 (save_after_load ProcessVariables.fixed_local_time
                         ProcessVariables.fixed_locale_string ProcessVariables.sample_vars
                         ProcessVariables.initial)));
    [reflexivity|cbn; lia|cbn; lia..].
Defined.

(** What was sent for "2024-05-06T07:08" is sent again as it is. *)
Lemma seconds_appended_once_witness :
  ProcessVariables.tsIso
    (ProcessVariables.handleTimestampChange "2024-05-06T07:08:00"
       ProcessVariables.typed_minutes)
  = VStr "2024-05-06T07:08:00".
Proof.
  apply (proj2 (seconds_appended_once ProcessVariables.typed_minutes)); reflexivity.
Defined.

(** The second of January 987, 03:04, is shown as "987-01-02T03:04". *)
Lemma early_year_sent_without_seconds_witness :
  ProcessVariables.toInputDateTimeLocal ProcessVariables.early_date = "987-01-02T03:04"
  /\ ProcessVariables.tsIso
       (ProcessVariables.handleTimestampChange
          (ProcessVariables.toInputDateTimeLocal ProcessVariables.early_date)
          ProcessVariables.initial)
     = VStr (ProcessVariables.toInputDateTimeLocal ProcessVariables.early_date).
Proof.
  split; [reflexivity|].
  apply (early_year_sent_without_seconds ProcessVariables.early_date
           ProcessVariables.initial); cbn; lia.
Defined.

(** Labels that override the toggle only. *)
Lemma labels_load_independently_witness :
  let labels := Some (ProcessVariables.LabelOverrides (Some "Engine") None) in
  ProcessVariables.labelSerialEngineTimestamp
    (ProcessVariables.loadLabels_resolved labels ProcessVariables.initial)
  = "Serial Engine Timestamp".
Proof.
  cbv zeta.
  exact (proj1 (proj2 (proj2 (proj2
           (labels_load_independently ProcessVariables.fixed_local_time
              ProcessVariables.fixed_locale_string
              (Some (ProcessVariables.LabelOverrides (Some "Engine") None))
              (ProcessVariables.Fetched None) ProcessVariables.initial))))
           (Some "Engine") eq_refl).
Defined.

(** A failure without a body. *)
Lemma failed_save_keeps_form_witness :
  ProcessVariables.handleSave_rejected (Some (ProcessVariables.SaveError None))
    ProcessVariables.typed_minutes
  = (ProcessVariables.typed_minutes,
     [ProcessVariables.Toast "Error saving" (VStr "Unable to save changes") "error"]).
Proof.
  destruct (failed_save_keeps_form (Some (ProcessVariables.SaveError None))
              ProcessVariables.typed_minutes) as (message & Hrun & _ & _ & Hdefault).
  rewrite Hrun, (Hdefault (or_intror eq_refl)). reflexivity.
Defined.
